(** * HeatglassV2 — the gabarito retrieval and calibration core

    A shallow embedding of [streamlit_app.py], lines 17–112:
    [load_gabarito_embeddings], [find_similar_cases] and
    [get_gabarito_guidance], together with the pieces of Python, NumPy and
    scikit-learn those three functions call.  The second half adds the
    helpers around them: [get_pdf_download_link] (189–192), [extract_json]
    (194–215), [get_progress_class] and [get_script_status_class]
    (294–306) and the display of the total score (625–628).

    Conventions.
    - A finite [float64] is modelled by the rational number it denotes
      ([Q]); comparisons are comparisons of values ([Qle], [Qeq]), and an
      arithmetic operation on floats is the exact one followed by the
      rounding to the nearest [float64] ([PyFloat.round]).
    - [np.argsort] and the cosine kernel of scikit-learn are parameters
      of the program; of the first only NumPy's contract is assumed (the
      indices in ascending order of value, no promise on equal values).
    - A Python call that may raise returns a [result]; code that also talks
      to Streamlit or to the embedding service runs in the monad [M], which
      threads the list of calls made so far.
    - Dictionaries whose iteration order is visible ([checklist.items()])
      are association lists in insertion order. *)

From Stdlib Require Import List ZArith QArith Qround String Ascii Bool Lia Lqa.
From Stdlib Require Import Permutation Sorted DecimalString Qpower.
From Stdlib Require Qcanon DecimalPos.
Import ListNotations.

Local Open Scope list_scope.

(** ** Python: exceptions and results *)

Module Py.

(** The subclasses of [Exception] that occur.  Signals deriving from
    [BaseException] only ([KeyboardInterrupt], [SystemExit]) are outside
    the model: no [except Exception] clause catches them. *)
Inductive exn : Type :=
| FileNotFoundError (msg : string)
| ValueError (msg : string)
| IndexError (msg : string)
| KeyError (key : string)
| TypeError (msg : string)
| OtherException (msg : string).

(** [str(e)], as the f-strings of the source print it. *)
Definition str_of_exn (e : exn) : string :=
  match e with
  | FileNotFoundError m | ValueError m | IndexError m
  | TypeError m | OtherException m => m
  | KeyError k => ("'" ++ k ++ "'")%string
  end.

Definition is_FileNotFoundError (e : exn) : bool :=
  match e with FileNotFoundError _ => true | _ => false end.

Inductive result (A : Type) : Type :=
| Ok (a : A)
| Raise (e : exn).
Arguments Ok {A} a.
Arguments Raise {A} e.

Definition rbind {A B} (r : result A) (f : A -> result B) : result B :=
  match r with
  | Ok a => f a
  | Raise e => Raise e
  end.

(** [l[i]] for a non-negative index. *)
Definition getitem {A} (l : list A) (i : nat) : result A :=
  match nth_error l i with
  | Some a => Ok a
  | None => Raise (IndexError "list index out of range")
  end.

(** [[f(x) for x in l]] where [f] may raise: stops at the first raise. *)
Fixpoint for_each {A B} (f : A -> result B) (l : list A) : result (list B) :=
  match l with
  | [] => Ok []
  | x :: rest =>
      rbind (f x) (fun y => rbind (for_each f rest) (fun ys => Ok (y :: ys)))
  end.

(** [l[start:]] with Python's treatment of negative and oversized
    bounds: a negative [start] counts from the end and is clamped at 0,
    a [start] beyond the end gives the empty list.  Note [-0 = 0]. *)
Definition slice_from {A} (start : Z) (l : list A) : list A :=
  let n := Z.of_nat (List.length l) in
  let s := if (start <? 0)%Z then Z.max 0 (start + n) else Z.min start n in
  skipn (Z.to_nat s) l.

(** [l[::-1]] *)
Definition reversed {A} (l : list A) : list A := rev l.

(** [str(n)] for an [int]. *)
Definition str_of_int (n : Z) : string := NilZero.string_of_int (Z.to_int n).

(** Round to the nearest integer, ties to even. *)
Definition round_half_even (x : Q) : Z :=
  let f := Qfloor x in
  match Qcompare (x - inject_Z f) (1 # 2) with
  | Lt => f
  | Gt => (f + 1)%Z
  | Eq => if Z.even f then f else (f + 1)%Z
  end.

(** [f"{x:.1f}"]: the value correctly rounded to one decimal place. *)
Definition format_1f (x : Q) : string :=
  let n := Z.abs (round_half_even (x * 10)) in
  ((if Qle_bool 0 x then "" else "-")
     ++ str_of_int (n / 10) ++ "." ++ str_of_int (n mod 10))%string.

(** [dict.get(key, default)] on a dictionary kept as an association list. *)
Fixpoint dict_get (d : list (string * string)) (key default : string) : string :=
  match d with
  | [] => default
  | (k, v) :: rest => if String.eqb k key then v else dict_get rest key default
  end.

(** [needle in s] *)
Fixpoint contains (needle s : string) : bool :=
  if String.prefix needle s then true
  else match s with
       | EmptyString => false
       | String _ rest => contains needle rest
       end.

Fixpoint drop (n : nat) (s : string) : string :=
  match n, s with
  | O, _ => s
  | S n', String _ rest => drop n' rest
  | S _, EmptyString => EmptyString
  end.

End Py.
Import Py.

Notation "x <- r ;; k" := (rbind r (fun x => k))
  (at level 61, r at next level, right associativity).

(** ** Python floats and [float(...)] of a numeral *)

Module PyFloat.

(** A [float]: a finite value, an infinity or a NaN. *)
Inductive t : Type :=
| Finite (q : Q)
| PosInf
| NegInf
| NaN.

(** The exponent [e] with [2^e <= x < 2^(e+1)], for [0 < x]. *)
Definition ilog2 (x : Q) : Z :=
  let e := (Z.log2 (Qnum x) - Z.log2 (Zpos (Qden x)))%Z in
  if Qle_bool (2 ^ e) x then e else (e - 1)%Z.

(** Rounding of a real number that is not negative to the nearest
    binary64 value, ties to even: 53 significant bits, no bit below
    [2^-1074], infinity from [2^1024] on. *)
Definition round_nonneg (x : Q) : t :=
  if Qle_bool x 0 then Finite 0
  else
    let e := ilog2 x in
    let q := Z.max (e - 52) (-1074) in
    let m := round_half_even (x / 2 ^ q) in
    let r := inject_Z m * 2 ^ q in
    if Qle_bool (2 ^ 1024) r then PosInf else Finite (Qred r).

Definition neg (x : t) : t :=
  match x with
  | Finite q => Finite (- q)
  | PosInf => NegInf
  | NegInf => PosInf
  | NaN => NaN
  end.

Definition round (x : Q) : t :=
  if Qle_bool 0 x then round_nonneg x else neg (round_nonneg (- x)).

(** [x * c] for two finite floats: the exact product, rounded. *)
Definition mul (x c : Q) : t := round (x * c).

(** [f"{x:.1f}"] for any float. *)
Definition format_1f (x : t) : string :=
  match x with
  | Finite q => Py.format_1f q
  | PosInf => "inf"
  | NegInf => "-inf"
  | NaN => "nan"
  end.

(** [x >= c] and [c < x] for a finite constant [c]. *)
Definition ge (x : t) (c : Q) : bool :=
  match x with
  | Finite q => Qle_bool c q
  | PosInf => true
  | NegInf | NaN => false
  end.

Definition gt (x : t) (c : Q) : bool :=
  match x with
  | Finite q => negb (Qle_bool q c)
  | PosInf => true
  | NegInf | NaN => false
  end.

(** [x / c] for a finite constant [c] greater than zero. *)
Definition div (x : t) (c : Q) : t :=
  match x with
  | Finite q => round (q / c)
  | other => other
  end.

(** [min(x, c)]: the second argument only when it is strictly less. *)
Definition min (x : t) (c : Q) : t :=
  if gt x c then Finite c else x.

(** [int(x)]: the value without its fractional part. *)
Definition to_int (x : t) : result Z :=
  match x with
  | Finite q => Ok (if Qle_bool 0 q then Qfloor q else (- Qfloor (- q))%Z)
  | PosInf | NegInf => Raise (OtherException "cannot convert float infinity to integer")
  | NaN => Raise (ValueError "cannot convert float NaN to integer")
  end.

Definition is_dot (c : ascii) : bool := Ascii.eqb c ".".

(** The text in front of the first dot, and the text behind it if there
    is a dot. *)
Fixpoint split_dot (s : string) : string * option string :=
  match s with
  | EmptyString => (EmptyString, None)
  | String c rest =>
      if is_dot c then (EmptyString, Some rest)
      else let (before, behind) := split_dot rest in (String c before, behind)
  end.

(** The number a run of decimal digits writes; the empty run writes 0. *)
Definition digits_value (s : string) : option Z :=
  option_map Z.of_uint (NilEmpty.uint_of_string s).

(** The value of a numeral made of digits and at most one dot, with a
    digit on at least one side of the dot. *)
Definition decimal_value (s : string) : option Q :=
  match split_dot s with
  | (whole, None) =>
      match whole with
      | EmptyString => None
      | _ => option_map inject_Z (digits_value whole)
      end
  | (whole, Some fraction) =>
      match whole, fraction with
      | EmptyString, EmptyString => None
      | _, _ =>
          match digits_value whole, digits_value fraction with
          | Some a, Some b =>
              Some (inject_Z a
                    + inject_Z b / inject_Z (10 ^ Z.of_nat (String.length fraction)))
          | _, _ => None
          end
      end
  end.

(** [float(s)] for a text of digits and dots, the only texts line 625
    passes to it. *)
Definition of_numeral (s : string) : result t :=
  match decimal_value s with
  | Some x => Ok (round_nonneg x)
  | None => Raise (ValueError ("could not convert string to float: '" ++ s ++ "'"))
  end.

End PyFloat.

(** ** NumPy: the calls [find_similar_cases] makes *)

Module Np.

(** A two-dimensional [float64] array, kept as its list of rows. *)
Definition ndarray2 : Type := list (list Q).

Definition n_cols (a : ndarray2) : nat :=
  match a with
  | [] => O
  | row :: _ => List.length row
  end.

(** [np.array(rows)] on a list of lists of floats: the rows must all
    have the length of the first one, a ragged list has no rectangular
    shape and is refused. *)
Definition array (rows : list (list Q)) : result ndarray2 :=
  if forallb (fun row => Nat.eqb (List.length row) (n_cols rows)) rows
  then Ok rows
  else Raise (ValueError "setting an array element with a sequence. The requested array has an inhomogeneous shape").

(** [np.array(v).reshape(1, -1)]: the vector as a single row. *)
Definition reshape_1_row (v : list Q) : ndarray2 := [v].

(** [a < b] on two floats. *)
Definition ltb (a b : Q) : bool := negb (Qle_bool b a).

(** [np.argsort(v)] with the default [kind].  NumPy gives the indices
    that sort [v] into ascending order.  The default sort is not stable:
    nothing is promised about the order of the indices of equal values,
    and the routine that runs depends on the build of NumPy and on the
    processor.  So the program is modelled over any [argsort], and this
    is what is known of it. *)
Definition argsort_contract (argsort : list Q -> list nat) : Prop :=
  forall v,
    Permutation (argsort v) (seq 0 (List.length v)) /\
    StronglySorted (fun i j => nth i v 0 <= nth j v 0) (argsort v).

(** Sorting by insertion: the index [i] is put in front of the first
    index of the sorted prefix whose value it must precede. *)
Fixpoint insert_index (precedes : Q -> Q -> bool) (v : list Q) (i : nat)
    (sorted : list nat) : list nat :=
  match sorted with
  | [] => [i]
  | j :: rest =>
      if precedes (nth i v 0) (nth j v 0)
      then i :: sorted
      else j :: insert_index precedes v i rest
  end.

Definition insertion_sort (precedes : Q -> Q -> bool) (v : list Q) : list nat :=
  fold_left (fun sorted i => insert_index precedes v i sorted)
    (seq 0 (List.length v)) [].

(** Two sorts that meet the contract and differ on equal values only.
    The first puts an index in front of strictly greater values: equal
    values stay in index order, as with [kind='stable'].  The second puts
    it in front of equal values too: they end up in reverse index
    order. *)
Definition argsort_stable (v : list Q) : list nat := insertion_sort ltb v.

Definition argsort_ties_reversed (v : list Q) : list nat := insertion_sort Qle_bool v.

End Np.

(** ** scikit-learn: [sklearn.metrics.pairwise.cosine_similarity] *)

Module Sklearn.

(** [check_array] needs at least one feature per row. *)
Definition check_array (a : Np.ndarray2) : result Np.ndarray2 :=
  if Nat.eqb (Np.n_cols a) 0
  then Raise (ValueError "Found array with 0 feature(s) while a minimum of 1 is required")
  else Ok a.

Section Kernel.

(** The number the library computes for one row of [X] against one row
    of [Y].  The ranking only needs it to be a function of the two
    rows, so it stays a parameter: the [float64] kernel of the library
    is one instance, [normalized_dot] below another. *)
Variable row_cosine : list Q -> list Q -> Q.

(** [cosine_similarity(X, Y)]: both arrays are checked, the numbers of
    columns must agree, and entry [i][j] is the score of row [i] of
    [X] against row [j] of [Y]. *)
Definition cosine_similarity (X Y : Np.ndarray2) : result Np.ndarray2 :=
  X' <- check_array X ;;
  Y' <- check_array Y ;;
  if Nat.eqb (Np.n_cols X') (Np.n_cols Y')
  then Ok (map (fun x => map (fun y => row_cosine x y) Y') X')
  else Raise (ValueError "Incompatible dimension for X and Y matrices").

End Kernel.

(** The library's formula, [normalize] both rows and take the dot
    product, over a given square root.  A row of norm zero is left as it
    is (its norm is replaced by 1), so its score is 0. *)
Section Formula.

Variable sqrt : Q -> Q.

Definition dot (x y : list Q) : Q :=
  fold_left Qplus (map (fun ab => fst ab * snd ab) (combine x y)) 0.

Definition row_norm (x : list Q) : Q := sqrt (dot x x).

Definition normalize (x : list Q) : list Q :=
  let n := row_norm x in
  let n := if Qeq_bool n 0 then 1 else n in
  map (fun a => a / n) x.

Definition normalized_dot (x y : list Q) : Q :=
  Qred (dot (normalize x) (normalize y)).

End Formula.

(** A square root to [p] binary places, rounded down; exact on the
    squares of numbers with at most [p] binary places. *)
Definition sqrt_bits (p : positive) (x : Q) : Q :=
  Qred (Z.sqrt (Qfloor (x * inject_Z (Z.pow_pos 4 p))) # Pos.pow 2 p).

End Sklearn.

(** ** The data model *)

(** A case identifier is a string or an integer; an f-string prints either
    with [str]. *)
Inductive CaseId : Type :=
| IdStr (s : string)
| IdInt (n : Z).

Definition str_of_id (i : CaseId) : string :=
  match i with
  | IdStr s => s
  | IdInt n => str_of_int n
  end.

(** The [metadata] dictionary of a case.  The two keys the program reads
    are fields; [None] stands for a dictionary without the key. *)
Record Metadata : Type := {
  pontuacao_esperada : option Z;
  checklist : option (list (string * bool))
}.

(** One item of [gabarito_embeddings.pkl]. *)
Record ReferenceCase : Type := {
  id : CaseId;
  embedding : list Q;
  metadata : Metadata
}.

(** One dictionary appended to [similar_cases]. *)
Record SimilarCase : Type := {
  similarity_score : Q;
  case_id : CaseId;
  case_metadata : Metadata
}.

(** [d[key]] on a [metadata] dictionary. *)
Definition meta_getitem {A} (field : option A) (key : string) : result A :=
  match field with
  | Some v => Ok v
  | None => Raise (KeyError key)
  end.

(** ** [find_similar_cases] (lines 33–50) *)

Section Ranker.

(** The [np.argsort] of the installation. *)
Variable argsort : list Q -> list nat.

Variable row_cosine : list Q -> list Q -> Q.

(** Line 40: [np.argsort(similarities)[-top_k:][::-1]]. *)
Definition top_indices_of (similarities : list Q) (top_k : Z) : list nat :=
  reversed (slice_from (- top_k) (argsort similarities)).

Definition find_similar_cases (query_embedding : list Q)
    (embeddings_data : option (list ReferenceCase)) (top_k : Z)
  : result (list SimilarCase) :=
  match embeddings_data with
  | None => Ok []
  | Some data =>
      if Nat.eqb (List.length data) 0 then Ok []
      else
        gabarito_embeddings <- Np.array (map embedding data) ;;
        let query_vector := Np.reshape_1_row query_embedding in
        sims <- Sklearn.cosine_similarity row_cosine query_vector gabarito_embeddings ;;
        similarities <- getitem sims 0 ;;
        let top_indices := top_indices_of similarities top_k in
        for_each
          (fun idx =>
             score <- getitem similarities idx ;;
             item <- getitem data idx ;;
             Ok {| similarity_score := score;
                   case_id := id item;
                   case_metadata := metadata item |})
          top_indices
  end.

End Ranker.

(** ** Effects: Streamlit and the embedding service *)

(** The calls the program makes to the outside, in the order it makes
    them. *)
Inductive call : Type :=
| st_success (msg : string)
| st_warning (msg : string)
| st_error (msg : string)
| embeddings_create (input model : string).

(** A computation receives the calls made so far and gives back a result
    or an exception together with the calls made up to that point. *)
Definition M (A : Type) : Type := list call -> result A * list call.

Definition ret {A} (a : A) : M A := fun log => (Ok a, log).

Definition bind {A B} (m : M A) (f : A -> M B) : M B :=
  fun log =>
    match m log with
    | (Ok a, log') => f a log'
    | (Raise e, log') => (Raise e, log')
    end.

(** A pure step that may raise. *)
Definition lift {A} (r : result A) : M A := fun log => (r, log).

(** [st.success], [st.warning], [st.error]. *)
Definition st (c : call) : M unit := fun log => (Ok tt, log ++ [c]).

(** [try: body  except Exception as e: handler(e)] *)
Definition try_except {A} (body : M A) (handler : exn -> M A) : M A :=
  fun log =>
    match body log with
    | (Ok a, log') => (Ok a, log')
    | (Raise e, log') => handler e log'
    end.

Notation "x <~ m ;; k" := (bind m (fun x => k))
  (at level 61, m at next level, right associativity).

Definition nl : string := String (ascii_of_nat 10) EmptyString.

(** ** [load_gabarito_embeddings] (lines 17–29) *)

Section Loader.

(** What [open('gabarito_embeddings.pkl', 'rb')] followed by
    [pickle.load(f)] gives: the unpickled list, or the exception raised
    by [open] ([FileNotFoundError] when there is no such file) or by
    [pickle.load] (a truncated or corrupt file). *)
Variable snapshot : result (list ReferenceCase).

Definition load_gabarito_embeddings : M (option (list ReferenceCase)) :=
  try_except
    (embeddings <~ lift snapshot ;;
     _ <~ st (st_success ("✅ Gabarito carregado: "
                            ++ str_of_int (Z.of_nat (List.length embeddings))
                            ++ " casos de referência")) ;;
     ret (Some embeddings))
    (fun e =>
       if is_FileNotFoundError e
       then
         _ <~ st (st_warning "⚠️ Arquivo gabarito_embeddings.pkl não encontrado. Sistema funcionando sem referência.") ;;
         ret None
       else
         _ <~ st (st_error ("❌ Erro ao carregar gabarito: " ++ str_of_exn e)) ;;
         ret None).

End Loader.

(** ** The formatting part of [get_gabarito_guidance] (lines 65–108) *)

Local Open Scope string_scope.

(** Lines 71–84. *)
Definition checklist_mapping : list (string * string) :=
  [ ("1_atendimento_saudacao", "1. Atendimento e saudação (10 pts)");
    ("2_dados_cadastro", "2. Coleta de dados cadastrais (6 pts)");
    ("3_script_lgpd", "3. Script LGPD (2 pts)");
    ("4_tecnica_eco", "4. Técnica do Eco (5 pts)");
    ("5_escuta_atenta", "5. Escuta atenta (3 pts)");
    ("6_compreensao", "6. Compreensão da solicitação (5 pts)");
    ("7_confirmacao_dano", "7. Confirmação do dano (10 pts)");
    ("8_cidade_loja", "8. Cidade e loja (10 pts)");
    ("9_comunicacao_eficaz", "9. Comunicação eficaz (5 pts)");
    ("10_conduta_acolhedora", "10. Conduta acolhedora (4 pts)");
    ("11_script_encerramento", "11. Script de encerramento (15 pts)");
    ("12_pesquisa_satisfacao", "12. Pesquisa de satisfação (6 pts)") ]%list.

(** Lines 95–96: one pass of the inner loop, [guidance += ...]. *)
Definition add_checklist_line (guidance : string) (entry : string * bool) : string :=
  let (criterio, resposta) := entry in
  let nome_legivel := dict_get checklist_mapping criterio criterio in
  guidance ++ "  • " ++ nome_legivel ++ ": "
           ++ (if resposta then "✓ SIM" else "✗ NÃO") ++ nl.

(** Lines 86–98: the loop [for i, case in enumerate(similar_cases, 1)],
    with [guidance] as the accumulator it appends to. *)
Fixpoint add_cases (guidance : string) (i : Z) (similar_cases : list SimilarCase)
  : result string :=
  match similar_cases with
  | []%list => Ok guidance
  | (case :: rest)%list =>
      let similarity_pct := PyFloat.mul (similarity_score case) 100 in
      let metadata := case_metadata case in
      let guidance :=
        guidance ++ "CASO SIMILAR #" ++ str_of_int i
                 ++ " - ID " ++ str_of_id (case_id case)
                 ++ " (Similaridade: " ++ PyFloat.format_1f similarity_pct ++ "%):" ++ nl in
      pontuacao <- meta_getitem (pontuacao_esperada metadata) "pontuacao_esperada" ;;
      let guidance :=
        guidance ++ "Pontuação correta: " ++ str_of_int pontuacao ++ "/81 pontos" ++ nl in
      let guidance := guidance ++ "Respostas corretas validadas:" ++ nl in
      items <- meta_getitem (checklist metadata) "checklist" ;;
      let guidance := fold_left add_checklist_line items guidance in
      add_cases (guidance ++ nl) (i + 1) rest
  end.

(** Lines 68–69. *)
Definition guidance_header : string :=
  nl ++ nl ++ "=== REFERÊNCIA DO GABARITO VALIDADO ===" ++ nl
     ++ "Casos similares identificados (use como calibração de rigor):" ++ nl ++ nl.

(** Lines 100–106. *)
Definition guidance_trailer : string :=
  "INSTRUÇÕES CRÍTICAS DE CALIBRAÇÃO:" ++ nl
  ++ "1. Use estes casos como PADRÃO DE RIGOR - mantenha o mesmo nível de exigência" ++ nl
  ++ "2. Avalie a transcrição atual de forma INDEPENDENTE mas CONSISTENTE com o gabarito" ++ nl
  ++ "3. Se houver dúvida entre SIM/NÃO, compare com casos similares acima" ++ nl
  ++ "4. A pontuação final deve refletir APENAS os critérios que foram REALMENTE cumpridos" ++ nl
  ++ "5. Seja RIGOROSO como demonstrado nos casos validados" ++ nl
  ++ "=== FIM DA REFERÊNCIA DO GABARITO ===" ++ nl.

(** Lines 65–108. *)
Definition format_guidance (similar_cases : list SimilarCase) : result string :=
  match similar_cases with
  | []%list => Ok ""
  | _ =>
      guidance <- add_cases guidance_header 1 similar_cases ;;
      Ok (guidance ++ guidance_trailer)
  end.

(** ** [get_gabarito_guidance] (lines 52–112) *)

Section Guidance.

Variable argsort : list Q -> list nat.
Variable row_cosine : list Q -> list Q -> Q.

(** The module-level [GABARITO_EMBEDDINGS] (line 31). *)
Variable GABARITO_EMBEDDINGS : option (list ReferenceCase).

(** [client.embeddings.create(input=..., model=...)]: the [data] of the
    response, one embedding per item, or the exception the client
    raises. *)
Variable client_embeddings : string -> string -> result (list (list Q)).

Definition client_embeddings_create (input model : string) : M (list (list Q)) :=
  fun log => (client_embeddings input model, (log ++ [embeddings_create input model])%list).

Definition get_gabarito_guidance (transcript_text : string) : M string :=
  match GABARITO_EMBEDDINGS with
  | None => ret ""
  | Some _ =>
      try_except
        (data <~ client_embeddings_create transcript_text "text-embedding-3-small" ;;
         current_embedding <~ lift (getitem data 0) ;;
         similar_cases <~ lift (find_similar_cases argsort row_cosine current_embedding
                                  GABARITO_EMBEDDINGS 3) ;;
         lift (format_guidance similar_cases))
        (fun e =>
           _ <~ st (st_warning ("⚠️ Erro ao buscar casos similares: " ++ str_of_exn e)) ;;
           ret "")
  end.

End Guidance.

Local Close Scope string_scope.

(** * Vocabulary of the statements *)

(** [v[i]] for an index of the array. *)
Definition value_at (v : list Q) (i : nat) : Q := nth i v 0.

(** The value at [i] is not greater than the value at [j]: the order
    every [np.argsort] produces. *)
Definition ascending (v : list Q) (i j : nat) : Prop :=
  value_at v i <= value_at v j.

(** The order of [Np.argsort_stable]: smaller value, or equal value and
    smaller index. *)
Definition before (v : list Q) (i j : nat) : Prop :=
  value_at v i < value_at v j \/ (value_at v i == value_at v j /\ (i < j)%nat).

(** The order of [Np.argsort_ties_reversed]: smaller value, or equal
    value and greater index. *)
Definition before_reversed (v : list Q) (i j : nat) : Prop :=
  value_at v i < value_at v j \/ (value_at v i == value_at v j /\ (j < i)%nat).

(** [a] stands somewhere in front of [b] in the list [l]. *)
Definition listed_before (l : list nat) (a b : nat) : Prop :=
  exists p p', (p < p')%nat /\ nth_error l p = Some a /\ nth_error l p' = Some b.

Section RankerVocabulary.

Variable row_cosine : list Q -> list Q -> Q.
Variable query_embedding : list Q.

(** The row [cosine_similarity(...)[0]] for a store. *)
Definition similarities_of (store : list ReferenceCase) : list Q :=
  map (fun item => row_cosine query_embedding (embedding item)) store.

(** Every embedding has as many elements as the query, and that number
    is not zero. *)
Definition same_dimension (store : list ReferenceCase) : Prop :=
  (1 <= List.length query_embedding)%nat /\
  Forall (fun item => List.length (embedding item) = List.length query_embedding) store.

(** The entry built from the store item at [idx] (lines 44–48). *)
Definition entry_of (store : list ReferenceCase) (idx : nat) (case : SimilarCase) : Prop :=
  nth_error (similarities_of store) idx = Some (similarity_score case) /\
  exists item, nth_error store idx = Some item /\
               case_id case = id item /\ case_metadata case = metadata item.

End RankerVocabulary.

(** * Worked inputs *)

(** A row kernel to run the functions on: the library's formula with
    square roots taken to 60 binary places. *)
Definition example_cosine : list Q -> list Q -> Q :=
  Sklearn.normalized_dot (Sklearn.sqrt_bits 60).

Definition meta (score : Z) (items : list (string * bool)) : Metadata :=
  {| pontuacao_esperada := Some score; checklist := Some items |}.

(** The two-entry store of the end-to-end example, for any checklists. *)
Definition case_A (items : list (string * bool)) : ReferenceCase :=
  {| id := IdStr "A"; embedding := [1; 0]; metadata := meta 75 items |}.

Definition case_B (items : list (string * bool)) : ReferenceCase :=
  {| id := IdStr "B"; embedding := [0; 1]; metadata := meta 40 items |}.

Definition query_09_01 : list Q := [0.9; 0.1].

(** Two cases with one and the same embedding. *)
Definition twin_first : ReferenceCase :=
  {| id := IdStr "first"; embedding := [1; 0]; metadata := meta 81 [] |}.

Definition twin_second : ReferenceCase :=
  {| id := IdStr "second"; embedding := [1; 0]; metadata := meta 60 [] |}.

(** * Vocabulary of the statements about the calibration text *)

Local Open Scope string_scope.

(** The strings of a list, one after the other. *)
Definition join (l : list string) : string := fold_right append "" l.

(** Line 90 as one string. *)
Definition case_header (i : Z) (case : SimilarCase) : string :=
  "CASO SIMILAR #" ++ str_of_int i
    ++ " - ID " ++ str_of_id (case_id case)
    ++ " (Similaridade: " ++ PyFloat.format_1f (PyFloat.mul (similarity_score case) 100)
    ++ "%):" ++ nl.

(** Lines 95–96 as one string. *)
Definition checklist_line (entry : string * bool) : string :=
  "  • " ++ dict_get checklist_mapping (fst entry) (fst entry) ++ ": "
         ++ (if snd entry then "✓ SIM" else "✗ NÃO") ++ nl.

(** [block] is the text of lines 90–98 for the case ranked [i]: its
    header, its score, one line per checklist item, an empty line. *)
Definition case_block (i : Z) (case : SimilarCase) (block : string) : Prop :=
  exists pontuacao items,
    pontuacao_esperada (case_metadata case) = Some pontuacao /\
    checklist (case_metadata case) = Some items /\
    block = case_header i case
              ++ ("Pontuação correta: " ++ str_of_int pontuacao ++ "/81 pontos" ++ nl)
              ++ ("Respostas corretas validadas:" ++ nl)
              ++ join (map checklist_line items) ++ nl.

(** A well-formed entry: its metadata has both keys the formatter reads. *)
Definition well_formed (case : SimilarCase) : Prop :=
  pontuacao_esperada (case_metadata case) <> None /\
  checklist (case_metadata case) <> None.

(** The percentage of an entry as the text shows it: the float
    [similarity_score * 100] of line 87 to one decimal place. *)
Definition percentage (case : SimilarCase) : string :=
  PyFloat.format_1f (PyFloat.mul (similarity_score case) 100) ++ "%".

(** The entry the end-to-end example returns, for a score [s]. *)
Definition entry_A (s : Q) (items : list (string * bool)) : SimilarCase :=
  {| similarity_score := s; case_id := IdStr "A"; case_metadata := meta 75 items |}.

(** The float [0.0025]: the binary64 value nearest to 25/10000, a little
    above it.  Its product with 100 rounds to the float 0.25. *)
Definition float_0_0025 : Q := 5764607523034235 # 2305843009213693952.

Local Close Scope string_scope.


(** * The rest of the program *)

(** ** Python strings *)

Module PyStr.

(** [s.find(c)] for a one-character [c]: the index of the first
    occurrence, or -1. *)
Fixpoint find_char (c : ascii) (s : string) : Z :=
  match s with
  | EmptyString => -1
  | String a rest =>
      if Ascii.eqb a c then 0
      else let r := find_char c rest in
           if (r =? -1)%Z then -1 else r + 1
  end%Z.

(** [s.rfind(c)]: the index of the last occurrence, or -1. *)
Fixpoint rfind_char (c : ascii) (s : string) : Z :=
  match s with
  | EmptyString => -1
  | String a rest =>
      let r := rfind_char c rest in
      if (r =? -1)%Z then (if Ascii.eqb a c then 0 else -1) else r + 1
  end%Z.

(** [s[i:j]]: negative bounds count from the end, both are clamped to
    the string, and the slice is empty when it ends before it starts. *)
Definition slice (i j : Z) (s : string) : string :=
  let n := Z.of_nat (String.length s) in
  let clamp k := if (k <? 0)%Z then Z.max 0 (k + n) else Z.min k n in
  let a := clamp i in
  let b := clamp j in
  substring (Z.to_nat a) (Z.to_nat (b - a)) s.

(** A byte that continues a UTF-8 character begun earlier. *)
Definition is_continuation (c : ascii) : bool :=
  let n := nat_of_ascii c in Nat.leb 128 n && Nat.ltb n 192.

(** [s[:n]]: the first [n] characters of a text kept in UTF-8. *)
Fixpoint take_chars (n : nat) (s : string) : string :=
  match s with
  | EmptyString => EmptyString
  | String c rest =>
      if is_continuation c then String c (take_chars n rest)
      else match n with
           | O => EmptyString
           | S n' => String c (take_chars n' rest)
           end
  end.

(** [s.startswith(p)] *)
Definition startswith (p s : string) : bool := String.prefix p s.

(** The lower-case form of a character as far as the letters A–Z go. *)
Definition lower_char (c : ascii) : ascii :=
  let n := nat_of_ascii c in
  if Nat.leb 65 n && Nat.leb n 90 then ascii_of_nat (n + 32) else c.

(** [s.lower()] on the letters A–Z.  A character outside ASCII is left
    as it is; whatever Python turns it into, the result is not one of
    the ASCII words the program compares with. *)
Fixpoint lower (s : string) : string :=
  match s with
  | EmptyString => EmptyString
  | String c rest => String (lower_char c) (lower rest)
  end.

End PyStr.

(** ** [extract_json] (lines 194–215) *)

Section ExtractJson.

(** The values [json.loads] builds, and [json.loads] itself: the parsed
    value, or the exception it raises on a text that is not JSON. *)
Variable json : Type.
Variable json_loads : string -> result json.

(** [try: return json.loads(s)  except: pass] *)
Definition try_loads (s : string) : option json :=
  match json_loads s with
  | Ok v => Some v
  | Raise _ => None
  end.

(** Lines 206–207: [re.findall(r'\{(?:[^{}]|(?R))*\}', text, re.DOTALL)].
    The module [re] has no recursive group [(?R)]: compiling the
    pattern fails, whatever the text. *)
Definition re_findall_json_pattern (text : string) : result (list string) :=
  Raise (OtherException "unknown extension ?R at position 12").

(** Lines 209–213: the first match that loads. *)
Fixpoint first_loadable (matches : list string) : option json :=
  match matches with
  | [] => None
  | m :: rest =>
      match try_loads m with
      | Some v => Some v
      | None => first_loadable rest
      end
  end.

Definition extract_json (text : string) : result json :=
  let start_idx := PyStr.find_char "{" text in
  let end_idx := PyStr.rfind_char "}" text in
  let loaded :=
    if negb (start_idx =? -1)%Z && negb (end_idx =? -1)%Z && (end_idx >? start_idx)%Z
    then try_loads (PyStr.slice start_idx (end_idx + 1) text)
    else None in
  match loaded with
  | Some v => Ok v
  | None =>
      matches <- re_findall_json_pattern text ;;
      match first_loadable matches with
      | Some v => Ok v
      | None =>
          Raise (ValueError ("Não foi possível extrair JSON válido da resposta: "
                               ++ PyStr.take_chars 100 text ++ "..."))
      end
  end.

End ExtractJson.

(** ** [get_script_status_class] (lines 302–306) *)

Definition get_script_status_class (status : string) : string :=
  if String.eqb (PyStr.lower status) "completo" || String.eqb (PyStr.lower status) "sim"
  then "script-usado"
  else "script-nao-usado".

(** Two texts that differ in the case of their letters A–Z only. *)
Inductive same_ignoring_case : string -> string -> Prop :=
| same_empty : same_ignoring_case EmptyString EmptyString
| same_char (a b : ascii) (s t : string) :
    PyStr.lower_char a = PyStr.lower_char b ->
    same_ignoring_case s t ->
    same_ignoring_case (String a s) (String b t).

(** A [metadata] dictionary with both keys the formatter reads. *)
Definition complete_metadata (m : Metadata) : Prop :=
  pontuacao_esperada m <> None /\ checklist m <> None.

(** What an entry shows of the store item it was built from. *)
Definition shown_of_case (case : SimilarCase) : CaseId * Metadata :=
  (case_id case, case_metadata case).

Definition shown_of_item (item : ReferenceCase) : CaseId * Metadata :=
  (id item, metadata item).

(** A case whose metadata lacks the key [pontuacao_esperada]. *)
Definition case_without_score : ReferenceCase :=
  {| id := IdStr "C"; embedding := [0; 1];
     metadata := {| pontuacao_esperada := None; checklist := Some [] |} |}.

(** A client that answers every request with the vector [0.9, 0.1]. *)
Definition client_09_01 (input model : string) : result (list (list Q)) :=
  Ok [query_09_01].

(** ** [get_progress_class] (lines 294–300) *)

Definition get_progress_class (value : PyFloat.t) : string :=
  if PyFloat.ge value 70 then "progress-high"
  else if PyFloat.ge value 50 then "progress-medium"
  else "progress-low".

(** ** The score shown (lines 625–628) *)

Definition is_digit (c : ascii) : bool :=
  let n := nat_of_ascii c in Nat.leb 48 n && Nat.leb n 57.

(** [re.sub(r"[^\d.]", "", s)]: what is left of [s] are its digits and
    dots.  The digits are those of ASCII, the only ones in a text that
    is all ASCII. *)
Fixpoint keep_digits_dots (s : string) : string :=
  match s with
  | EmptyString => EmptyString
  | String c rest =>
      if is_digit c || PyFloat.is_dot c
      then String c (keep_digits_dots rest)
      else keep_digits_dots rest
  end.

(** A text all of whose characters are ASCII. *)
Fixpoint is_ascii (s : string) : bool :=
  match s with
  | EmptyString => true
  | String c rest => Nat.ltb (nat_of_ascii c) 128 && is_ascii rest
  end.

(** Line 625, from the text [str(analysis.get("pontuacao_total", "0"))]
    on. *)
Definition score_total (pontuacao_total : string) : result PyFloat.t :=
  PyFloat.of_numeral (keep_digits_dots pontuacao_total).

(** The Streamlit calls of lines 627 and 628, with what they are
    given. *)
Inductive display : Type :=
| st_progress (value : PyFloat.t)
| st_markdown (body : string).

(** Lines 625–628: the result, and the calls made, in the order of the
    lines.  [st.progress] is called on line 627, before [int(total)] is
    evaluated on line 628: when that raises, the call has been made. *)
Definition score_display (pontuacao_total : string) : result unit * list display :=
  match score_total pontuacao_total with
  | Raise e => (Raise e, [])
  | Ok total =>
      let progress_class := get_progress_class total in
      let calls := [st_progress (PyFloat.min (PyFloat.div total 100) 1)] in
      match PyFloat.to_int total with
      | Raise e => (Raise e, calls)
      | Ok points =>
          (Ok tt,
           calls ++ [st_markdown ("<h3 class='" ++ progress_class ++ "'>"
                                    ++ str_of_int points ++ " pontos de 81</h3>")%string])
      end
  end.

(** A text of [n] nines. *)
Fixpoint nines (n : nat) : string :=
  match n with
  | O => EmptyString
  | S n' => String "9" (nines n')
  end.

(** Some character of the text is a digit. *)
Fixpoint has_digit (s : string) : bool :=
  match s with
  | EmptyString => false
  | String c rest => is_digit c || has_digit rest
  end.

(** The three classes in the order of the scores they stand for. *)
Definition class_rank (class : string) : nat :=
  if String.eqb class "progress-high" then 2
  else if String.eqb class "progress-medium" then 1
  else 0.

(** ** [base64] and [get_pdf_download_link] (lines 189–192) *)

Module Base64.

Local Open Scope Z_scope.

(** The value of a byte. *)
Definition byte_value (c : ascii) : Z := Z.of_N (N_of_ascii c).

Definition byte_of_value (n : Z) : ascii := ascii_of_N (Z.to_N n).

Definition alphabet : string :=
  "ABCDEFGHIJKLMNOPQRSTUVWXYZabcdefghijklmnopqrstuvwxyz0123456789+/".

Definition pad : ascii := "=".

(** The character that writes six bits. *)
Definition char_of_sextet (n : Z) : ascii :=
  match String.get (Z.to_nat n) alphabet with
  | Some c => c
  | None => pad
  end.

(** The six bits a character of the alphabet writes. *)
Fixpoint index_from (i : Z) (c : ascii) (s : string) : option Z :=
  match s with
  | EmptyString => None
  | String a rest => if Ascii.eqb a c then Some i else index_from (i + 1) c rest
  end.

Definition sextet_of_char (c : ascii) : option Z := index_from 0 c alphabet.

(** The 24 bits of three bytes, and their four groups of six bits. *)
Definition group (a b c : ascii) : Z :=
  byte_value a * 65536 + byte_value b * 256 + byte_value c.

Definition zero : ascii := ascii_of_nat 0.

(** [base64.b64encode(data)]: three bytes give four characters; one or
    two bytes left at the end are filled up with zero bits and give two
    or three characters and the padding. *)
Fixpoint b64encode (data : string) : string :=
  match data with
  | EmptyString => EmptyString
  | String a EmptyString =>
      let n := group a zero zero in
      String (char_of_sextet (n / 262144))
        (String (char_of_sextet ((n / 4096) mod 64))
           (String pad (String pad EmptyString)))
  | String a (String b EmptyString) =>
      let n := group a b zero in
      String (char_of_sextet (n / 262144))
        (String (char_of_sextet ((n / 4096) mod 64))
           (String (char_of_sextet ((n / 64) mod 64))
              (String pad EmptyString)))
  | String a (String b (String c rest)) =>
      let n := group a b c in
      String (char_of_sextet (n / 262144))
        (String (char_of_sextet ((n / 4096) mod 64))
           (String (char_of_sextet ((n / 64) mod 64))
              (String (char_of_sextet (n mod 64))
                 (b64encode rest))))
  end.

(** [base64.b64decode(text)] on a padded text of the alphabet: four
    characters give three bytes, the padded last four give one or
    two. *)
Fixpoint b64decode (text : string) : option string :=
  match text with
  | EmptyString => Some EmptyString
  | String c1 (String c2 (String c3 (String c4 rest))) =>
      match sextet_of_char c1, sextet_of_char c2 with
      | Some s1, Some s2 =>
          if Ascii.eqb c3 pad then
            if Ascii.eqb c4 pad
            then match rest with
                 | EmptyString =>
                     Some (String (byte_of_value ((s1 * 64 + s2) / 16)) EmptyString)
                 | _ => None
                 end
            else None
          else
            match sextet_of_char c3 with
            | Some s3 =>
                let n3 := (s1 * 64 + s2) * 64 + s3 in
                if Ascii.eqb c4 pad
                then match rest with
                     | EmptyString =>
                         Some (String (byte_of_value (n3 / 1024))
                                 (String (byte_of_value ((n3 / 4) mod 256)) EmptyString))
                     | _ => None
                     end
                else
                  match sextet_of_char c4, b64decode rest with
                  | Some s4, Some bytes =>
                      let n := n3 * 64 + s4 in
                      Some (String (byte_of_value (n / 65536))
                              (String (byte_of_value ((n / 256) mod 256))
                                 (String (byte_of_value (n mod 256)) bytes)))
                  | _, _ => None
                  end
            | None => None
            end
      | _, _ => None
      end
  | _ => None
  end.

End Base64.

(** The double quote. *)
Definition dq : string := String (ascii_of_nat 34) EmptyString.

(** Lines 189–192.  [pdf_bytes] is a byte string; [.decode()] of the
    encoded bytes, all ASCII, changes nothing. *)
Definition get_pdf_download_link (pdf_bytes filename : string) : string :=
  let b64 := Base64.b64encode pdf_bytes in
  let href :=
    ("<a href=" ++ dq ++ "data:application/pdf;base64," ++ b64 ++ dq
       ++ " download=" ++ dq ++ filename ++ dq
       ++ ">Baixar Relatório em PDF</a>")%string in
  href.

(** What a download link carries between [base64,] and the double quote
    that closes the [href]. *)
Definition href_payload (link : string) : string :=
  let rest := drop (String.length ("<a href=" ++ dq ++ "data:application/pdf;base64,")) link in
  PyStr.slice 0 (PyStr.find_char (ascii_of_nat 34) rest) rest.

(** * Facts about the Python and NumPy pieces *)

Lemma ltb_true (a b : Q) : Np.ltb a b = true <-> a < b.
Proof.
  unfold Np.ltb. rewrite negb_true_iff. split; intro H.
  - apply Qnot_le_lt. intro Hle. apply Qle_bool_iff in Hle. congruence.
  - destruct (Qle_bool b a) eqn:E; [|reflexivity].
    apply Qle_bool_iff in E. exfalso. exact (Qlt_not_le _ _ H E).
Qed.

Lemma ltb_false (a b : Q) : Np.ltb a b = false <-> b <= a.
Proof.
  unfold Np.ltb. rewrite negb_false_iff. apply Qle_bool_iff.
Qed.

(** [l[start:]] is always a suffix of [l]. *)
Lemma slice_from_skipn {A} (start : Z) (l : list A) :
  exists n, slice_from start l = skipn n l.
Proof. unfold slice_from. eexists. reflexivity. Qed.

Lemma slice_from_zero {A} (l : list A) : slice_from 0 l = l.
Proof.
  unfold slice_from. simpl. rewrite Z.min_l by lia. reflexivity.
Qed.

(** The last [k] elements for [1 <= k]: [l[-k:]]. *)
Lemma slice_from_last {A} (k : Z) (l : list A) :
  (1 <= k)%Z ->
  slice_from (- k) l = skipn (List.length l - Z.to_nat k) l.
Proof.
  intro Hk. unfold slice_from.
  replace (- k <? 0)%Z with true by (symmetry; apply Z.ltb_lt; lia).
  f_equal. lia.
Qed.

Lemma slice_from_length_last {A} (k : Z) (l : list A) :
  (1 <= k)%Z ->
  List.length (slice_from (- k) l) = Nat.min (Z.to_nat k) (List.length l).
Proof.
  intro Hk. rewrite slice_from_last by assumption.
  rewrite length_skipn. lia.
Qed.

Lemma StronglySorted_skipn {A} (R : A -> A -> Prop) (n : nat) (l : list A) :
  StronglySorted R l -> StronglySorted R (skipn n l).
Proof.
  revert l. induction n as [|n IH]; intros l Hs; simpl; [assumption|].
  destruct l as [|x l]; [constructor|].
  apply IH. inversion Hs; assumption.
Qed.

Lemma StronglySorted_app_inv {A} (R : A -> A -> Prop) (l1 l2 : list A) :
  StronglySorted R (l1 ++ l2) ->
  StronglySorted R l1 /\ StronglySorted R l2 /\
  (forall x y, In x l1 -> In y l2 -> R x y).
Proof.
  induction l1 as [|a l1 IH]; simpl; intro Hs.
  - repeat split; [constructor | assumption | intros x y []].
  - inversion Hs as [|? ? Hs' Hall]; subst.
    destruct (IH Hs') as (H1 & H2 & H3).
    rewrite Forall_app in Hall. destruct Hall as [Ha1 Ha2].
    repeat split; [constructor; assumption | assumption |].
    intros x y [->|Hx] Hy.
    + rewrite Forall_forall in Ha2. auto.
    + auto.
Qed.

Lemma StronglySorted_snoc {A} (R : A -> A -> Prop) (l : list A) (a : A) :
  StronglySorted R l -> (forall x, In x l -> R x a) ->
  StronglySorted R (l ++ [a]).
Proof.
  induction l as [|b l IH]; simpl; intros Hs Hall.
  - constructor; constructor.
  - inversion Hs as [|? ? Hs' Hb]; subst. constructor.
    + apply IH; auto.
    + apply Forall_app. split; [assumption|]. constructor; [|constructor].
      apply Hall. left. reflexivity.
Qed.

(** Reversing a sorted list sorts it the other way round. *)
Lemma StronglySorted_rev {A} (R : A -> A -> Prop) (l : list A) :
  StronglySorted R l -> StronglySorted (fun x y => R y x) (rev l).
Proof.
  induction 1 as [|a l Hs IH Hall]; simpl; [constructor|].
  apply StronglySorted_snoc; [assumption|].
  intros x Hx. apply in_rev in Hx. rewrite Forall_forall in Hall. auto.
Qed.

(** In a strongly sorted list the relation holds between any two
    positions taken in order. *)
Lemma StronglySorted_nth_error {A} (R : A -> A -> Prop) (l : list A) :
  StronglySorted R l ->
  forall i j x y, (i < j)%nat ->
    nth_error l i = Some x -> nth_error l j = Some y -> R x y.
Proof.
  induction 1 as [|a l Hs IH Hall]; intros i j x y Hij Hi Hj.
  - destruct i; discriminate.
  - destruct j as [|j]; [lia|]. simpl in Hj.
    destruct i as [|i]; simpl in Hi.
    + injection Hi as <-. rewrite Forall_forall in Hall.
      apply Hall. eapply nth_error_In; eassumption.
    + eapply IH; [|eassumption|eassumption]. lia.
Qed.

(** ** Sorting by insertion meets the contract of [np.argsort] *)

Lemma StronglySorted_weaken {A} (R R' : A -> A -> Prop) (l : list A) :
  (forall x y, R x y -> R' x y) -> StronglySorted R l -> StronglySorted R' l.
Proof.
  intros HR. induction 1 as [|a l Hs IH Hall]; constructor; [assumption|].
  rewrite Forall_forall in Hall |- *. auto.
Qed.

Section InsertionFacts.

Variable v : list Q.

Lemma before_le (i j : nat) : before v i j -> ascending v i j.
Proof.
  unfold ascending. intros [H|[H _]]; [apply Qlt_le_weak; assumption|].
  rewrite H. apply Qle_refl.
Qed.

Lemma before_reversed_le (i j : nat) : before_reversed v i j -> ascending v i j.
Proof.
  unfold ascending. intros [H|[H _]]; [apply Qlt_le_weak; assumption|].
  rewrite H. apply Qle_refl.
Qed.

Lemma insert_index_perm (precedes : Q -> Q -> bool) (i : nat) (l : list nat) :
  Permutation (Np.insert_index precedes v i l) (i :: l).
Proof.
  induction l as [|j l IH]; simpl; [reflexivity|].
  destruct (precedes _ _); [reflexivity|].
  rewrite IH. apply perm_swap.
Qed.

Lemma insert_index_sorted (i : nat) (l : list nat) :
  StronglySorted (before v) l ->
  (forall j, In j l -> (j < i)%nat) ->
  StronglySorted (before v) (Np.insert_index Np.ltb v i l).
Proof.
  induction 1 as [|j l Hs IH Hall]; intro Hlt; simpl.
  - constructor; constructor.
  - fold (value_at v i). fold (value_at v j).
    destruct (Np.ltb (value_at v i) (value_at v j)) eqn:E.
    + apply ltb_true in E. constructor; [constructor; assumption|].
      constructor; [left; assumption|].
      rewrite Forall_forall in Hall |- *. intros x Hx. left.
      eapply Qlt_le_trans; [eassumption|]. apply before_le. auto.
    + apply ltb_false in E. constructor.
      * apply IH. intros x Hx. apply Hlt. right. assumption.
      * rewrite Forall_forall in Hall |- *. intros x Hx.
        apply (Permutation_in _ (insert_index_perm Np.ltb i l)) in Hx.
        destruct Hx as [<-|Hx]; [|auto].
        apply Qle_lteq in E. destruct E as [E|E].
        -- left. assumption.
        -- right. split; [assumption|]. apply Hlt. left. reflexivity.
Qed.

Lemma insert_index_sorted_reversed (i : nat) (l : list nat) :
  StronglySorted (before_reversed v) l ->
  (forall j, In j l -> (j < i)%nat) ->
  StronglySorted (before_reversed v) (Np.insert_index Qle_bool v i l).
Proof.
  induction 1 as [|j l Hs IH Hall]; intro Hlt; simpl.
  - constructor; constructor.
  - fold (value_at v i). fold (value_at v j).
    destruct (Qle_bool (value_at v i) (value_at v j)) eqn:E.
    + apply Qle_bool_iff in E.
      assert (Hfront : forall x, value_at v i <= value_at v x -> (x < i)%nat ->
                                 before_reversed v i x).
      { intros x Hle Hx. apply Qle_lteq in Hle. destruct Hle as [Hl|He].
        - left. assumption.
        - right. split; assumption. }
      constructor; [constructor; assumption|].
      constructor; [apply Hfront; [assumption | apply Hlt; left; reflexivity]|].
      rewrite Forall_forall in Hall |- *. intros x Hx.
      apply Hfront; [|apply Hlt; right; assumption].
      eapply Qle_trans; [eassumption|]. apply before_reversed_le. auto.
    + assert (Hgt : value_at v j < value_at v i).
      { apply Qnot_le_lt. intro H. apply Qle_bool_iff in H. congruence. }
      constructor.
      * apply IH. intros x Hx. apply Hlt. right. assumption.
      * rewrite Forall_forall in Hall |- *. intros x Hx.
        apply (Permutation_in _ (insert_index_perm Qle_bool i l)) in Hx.
        destruct Hx as [<-|Hx]; [left; assumption | auto].
Qed.

(** The loop of the sort keeps the list sorted, whatever order the
    insertion keeps. *)
Lemma insertion_sort_loop (precedes : Q -> Q -> bool) (R : nat -> nat -> Prop) :
  (forall i l, StronglySorted R l -> (forall j, In j l -> (j < i)%nat) ->
               StronglySorted R (Np.insert_index precedes v i l)) ->
  forall (n a : nat) (acc : list nat),
    StronglySorted R acc ->
    (forall j, In j acc -> (j < a)%nat) ->
    let r := fold_left (fun sorted i => Np.insert_index precedes v i sorted) (seq a n) acc in
    StronglySorted R r /\ Permutation r (acc ++ seq a n).
Proof.
  intros Hins n. induction n as [|n IH]; intros a acc Hs Hlt; simpl.
  - split; [assumption|]. rewrite app_nil_r. reflexivity.
  - destruct (IH (S a) (Np.insert_index precedes v a acc)) as [H1 H2].
    + apply Hins; assumption.
    + intros j Hj. apply (Permutation_in _ (insert_index_perm precedes a acc)) in Hj.
      destruct Hj as [<-|Hj]; [lia|]. apply Hlt in Hj. lia.
    + split; [exact H1|]. rewrite H2, insert_index_perm.
      apply Permutation_middle.
Qed.

Lemma argsort_stable_sorted : StronglySorted (before v) (Np.argsort_stable v).
Proof.
  apply (insertion_sort_loop Np.ltb (before v) insert_index_sorted (List.length v) 0 []);
    [constructor | intros j []].
Qed.

Lemma argsort_ties_reversed_sorted :
  StronglySorted (before_reversed v) (Np.argsort_ties_reversed v).
Proof.
  apply (insertion_sort_loop Qle_bool (before_reversed v) insert_index_sorted_reversed
           (List.length v) 0 []);
    [constructor | intros j []].
Qed.

End InsertionFacts.

(** Both sorts are sorts [np.argsort] may be. *)
Lemma argsort_stable_contract : Np.argsort_contract Np.argsort_stable.
Proof.
  intro v. split.
  - apply (insertion_sort_loop v Np.ltb (before v) (insert_index_sorted v) (List.length v) 0 []);
      [constructor | intros j []].
  - apply (StronglySorted_weaken (before v)); [apply before_le|].
    apply argsort_stable_sorted.
Qed.

Lemma argsort_ties_reversed_contract : Np.argsort_contract Np.argsort_ties_reversed.
Proof.
  intro v. split.
  - apply (insertion_sort_loop v Qle_bool (before_reversed v)
             (insert_index_sorted_reversed v) (List.length v) 0 []);
      [constructor | intros j []].
  - apply (StronglySorted_weaken (before_reversed v)); [apply before_reversed_le|].
    apply argsort_ties_reversed_sorted.
Qed.

(** ** What the contract of [np.argsort] gives *)

Section ArgsortFacts.

Variable argsort : list Q -> list nat.
Hypothesis argsort_ok : Np.argsort_contract argsort.
Variable v : list Q.

Lemma argsort_sorted : StronglySorted (ascending v) (argsort v).
Proof. apply argsort_ok. Qed.

Lemma argsort_perm : Permutation (argsort v) (seq 0 (List.length v)).
Proof. apply argsort_ok. Qed.

Lemma argsort_length : List.length (argsort v) = List.length v.
Proof.
  rewrite (Permutation_length argsort_perm). apply length_seq.
Qed.

Lemma argsort_in (i : nat) : In i (argsort v) <-> (i < List.length v)%nat.
Proof.
  split; intro H.
  - apply (Permutation_in _ argsort_perm) in H. apply in_seq in H. lia.
  - apply (Permutation_in _ (Permutation_sym argsort_perm)).
    apply in_seq. lia.
Qed.

Lemma argsort_NoDup : NoDup (argsort v).
Proof.
  apply (Permutation_NoDup (Permutation_sym argsort_perm)). apply seq_NoDup.
Qed.

End ArgsortFacts.

(** ** The index list of line 40 *)

Section TopIndices.

Variable argsort : list Q -> list nat.
Hypothesis argsort_ok : Np.argsort_contract argsort.
Variable similarities : list Q.
Variable top_k : Z.

(** The slice keeps a suffix of the sorted indices; what it drops is the
    prefix in front of it. *)
Lemma top_indices_split :
  exists dropped,
    argsort similarities = dropped ++ rev (top_indices_of argsort similarities top_k) /\
    (1 <= top_k -> List.length (top_indices_of argsort similarities top_k)
                   = Nat.min (Z.to_nat top_k) (List.length similarities))%Z /\
    (top_k = 0%Z -> dropped = []).
Proof.
  unfold top_indices_of, reversed.
  destruct (slice_from_skipn (- top_k) (argsort similarities)) as [n Hn].
  exists (firstn n (argsort similarities)).
  rewrite rev_involutive, Hn, firstn_skipn. split; [reflexivity|]. split.
  - intro Hk. rewrite <- Hn, length_rev, slice_from_length_last by assumption.
    rewrite (argsort_length argsort argsort_ok). reflexivity.
  - intros ->. simpl in Hn. rewrite slice_from_zero in Hn.
    assert (Hl : List.length (skipn n (argsort similarities))
                 = List.length (argsort similarities)) by (rewrite <- Hn; reflexivity).
    rewrite length_skipn in Hl.
    destruct n as [|n]; [reflexivity|].
    destruct (argsort similarities); [reflexivity|]. simpl in Hl. lia.
Qed.

Lemma top_indices_in (i : nat) :
  In i (top_indices_of argsort similarities top_k) -> (i < List.length similarities)%nat.
Proof.
  intro Hi. destruct top_indices_split as (dropped & Heq & _).
  apply (argsort_in argsort argsort_ok). rewrite Heq. apply in_or_app. right.
  apply -> in_rev. assumption.
Qed.

(** Whatever order the sort leaves its result in, the indices kept are
    in the opposite order. *)
Lemma top_indices_sorted_by (R : nat -> nat -> Prop) :
  StronglySorted R (argsort similarities) ->
  StronglySorted (fun i j => R j i) (top_indices_of argsort similarities top_k).
Proof.
  intro Hs. destruct top_indices_split as (dropped & Heq & _).
  rewrite Heq in Hs.
  apply StronglySorted_app_inv in Hs. destruct Hs as (_ & Hs & _).
  apply StronglySorted_rev in Hs. rewrite rev_involutive in Hs. exact Hs.
Qed.

(** Later positions hold values that are not greater. *)
Lemma top_indices_sorted :
  StronglySorted (fun i j => ascending similarities j i)
    (top_indices_of argsort similarities top_k).
Proof.
  apply top_indices_sorted_by. apply argsort_sorted. exact argsort_ok.
Qed.

(** An index that was not kept comes, in the order of the sort, before
    every index that was. *)
Lemma top_indices_dropped_by (R : nat -> nat -> Prop) (i j : nat) :
  StronglySorted R (argsort similarities) ->
  (i < List.length similarities)%nat ->
  ~ In i (top_indices_of argsort similarities top_k) ->
  In j (top_indices_of argsort similarities top_k) ->
  R i j.
Proof.
  intros Hs Hi Hni Hj. destruct top_indices_split as (dropped & Heq & _).
  rewrite Heq in Hs.
  apply StronglySorted_app_inv in Hs. destruct Hs as (_ & _ & Hs).
  apply Hs.
  - apply (argsort_in argsort argsort_ok) in Hi. rewrite Heq in Hi. apply in_app_or in Hi.
    destruct Hi as [Hi|Hi]; [assumption|].
    apply in_rev in Hi. contradiction.
  - apply -> in_rev. assumption.
Qed.

(** An index that was not kept has a value no greater than any index
    that was. *)
Lemma top_indices_dominate (i j : nat) :
  (i < List.length similarities)%nat ->
  ~ In i (top_indices_of argsort similarities top_k) ->
  In j (top_indices_of argsort similarities top_k) ->
  value_at similarities i <= value_at similarities j.
Proof.
  apply (top_indices_dropped_by (ascending similarities)).
  apply argsort_sorted. exact argsort_ok.
Qed.

(** The first index kept holds the greatest value of all. *)
Lemma top_indices_head_max (best i : nat) :
  nth_error (top_indices_of argsort similarities top_k) 0 = Some best ->
  (i < List.length similarities)%nat ->
  value_at similarities i <= value_at similarities best.
Proof.
  intros Hb Hi.
  assert (Hin : In best (top_indices_of argsort similarities top_k))
    by (eapply nth_error_In; eassumption).
  destruct (in_dec Nat.eq_dec i (top_indices_of argsort similarities top_k)) as [Hit|Hit].
  - destruct (Nat.eq_dec i best) as [->|Hne]; [apply Qle_refl|].
    destruct (In_nth_error _ _ Hit) as [p Hp].
    destruct p as [|p]; [congruence|].
    apply (StronglySorted_nth_error _ _ top_indices_sorted 0 (S p));
      [lia | assumption | assumption].
  - apply top_indices_dominate; assumption.
Qed.

Lemma top_indices_NoDup : NoDup (top_indices_of argsort similarities top_k).
Proof.
  destruct top_indices_split as (dropped & Heq & _).
  pose proof (argsort_NoDup argsort argsort_ok similarities) as Hn. rewrite Heq in Hn.
  apply NoDup_app_remove_l in Hn. apply NoDup_rev in Hn.
  rewrite rev_involutive in Hn. exact Hn.
Qed.

(** Two indices kept stand in the result in the reverse of the order
    the sort listed them in. *)
Lemma top_indices_listed (p p' i j : nat) :
  (p < p')%nat ->
  nth_error (top_indices_of argsort similarities top_k) p = Some i ->
  nth_error (top_indices_of argsort similarities top_k) p' = Some j ->
  listed_before (argsort similarities) j i.
Proof.
  intros Hlt Hi Hj. destruct top_indices_split as (dropped & Heq & _).
  set (top := top_indices_of argsort similarities top_k) in *.
  assert (Hp' : (p' < List.length top)%nat) by (apply nth_error_Some; congruence).
  assert (Hrev : forall n x, (n < List.length top)%nat -> nth_error top n = Some x ->
                   nth_error (argsort similarities)
                     (List.length dropped + (List.length top - S n)) = Some x).
  { intros n x Hn Hx. rewrite Heq.
    rewrite nth_error_app2 by lia.
    replace (List.length dropped + (List.length top - S n) - List.length dropped)%nat
      with (List.length top - S n)%nat by lia.
    rewrite nth_error_rev.
    replace (Nat.ltb (List.length top - S n) (List.length top)) with true
      by (symmetry; apply Nat.ltb_lt; lia).
    replace (List.length top - S (List.length top - S n))%nat with n by lia.
    exact Hx. }
  exists (List.length dropped + (List.length top - S p'))%nat,
         (List.length dropped + (List.length top - S p))%nat.
  split; [lia|]. split; apply Hrev; (lia || assumption).
Qed.

End TopIndices.

Lemma top_indices_of_nil (argsort : list Q -> list nat) (top_k : Z) :
  Np.argsort_contract argsort -> top_indices_of argsort [] top_k = [].
Proof.
  intro Hok. unfold top_indices_of, reversed, slice_from.
  pose proof (argsort_length argsort Hok []) as Hl.
  destruct (argsort []); [|discriminate].
  simpl. rewrite skipn_nil. reflexivity.
Qed.

(** * [find_similar_cases] *)

Lemma for_each_ok {A B} (f : A -> result B) (P : A -> B -> Prop) (l : list A) :
  (forall x, In x l -> exists y, f x = Ok y /\ P x y) ->
  exists ys, for_each f l = Ok ys /\ Forall2 P l ys.
Proof.
  induction l as [|x l IH]; intro H; simpl.
  - exists []. split; [reflexivity | constructor].
  - destruct (H x (or_introl eq_refl)) as (y & Hy & Py).
    destruct IH as (ys & Hys & Pys); [intros; apply H; right; assumption|].
    exists (y :: ys). rewrite Hy, Hys. split; [reflexivity|].
    constructor; assumption.
Qed.

Lemma Forall2_nth_error_r {A B} (P : A -> B -> Prop) (l : list A) (l' : list B) :
  Forall2 P l l' ->
  forall n y, nth_error l' n = Some y ->
    exists x, nth_error l n = Some x /\ P x y.
Proof.
  induction 1 as [|x y l l' Hxy _ IH]; intros n z Hn.
  - destruct n; discriminate.
  - destruct n as [|n]; simpl in *.
    + injection Hn as <-. exists x. split; [reflexivity | assumption].
    + apply IH. assumption.
Qed.

Lemma nth_error_value_at (v : list Q) (i : nat) (s : Q) :
  nth_error v i = Some s -> value_at v i = s.
Proof. intro H. unfold value_at. apply nth_error_nth. assumption. Qed.

Section RankerFacts.

Variable argsort : list Q -> list nat.
Hypothesis argsort_ok : Np.argsort_contract argsort.
Variable row_cosine : list Q -> list Q -> Q.
Variable query_embedding : list Q.

Lemma similarities_of_length (store : list ReferenceCase) :
  List.length (similarities_of row_cosine query_embedding store) = List.length store.
Proof. apply length_map. Qed.

Lemma array_same_dimension (store : list ReferenceCase) :
  store <> [] -> same_dimension query_embedding store ->
  Np.array (map embedding store) = Ok (map embedding store) /\
  Np.n_cols (map embedding store) = List.length query_embedding.
Proof.
  intros Hne [_ Hall]. destruct store as [|item rest]; [contradiction|].
  assert (Hc : Np.n_cols (map embedding (item :: rest)) = List.length query_embedding)
    by (inversion Hall; assumption).
  split; [|exact Hc]. unfold Np.array.
  replace (forallb _ _) with true; [reflexivity|].
  symmetry. apply forallb_forall. intros row Hrow. rewrite Hc.
  apply in_map_iff in Hrow. destruct Hrow as (c & <- & Hin).
  rewrite Forall_forall in Hall. apply Nat.eqb_eq. auto.
Qed.

(** On a store of the query's dimension the function returns, and its
    result is the list of entries at the indices of line 40. *)
Lemma find_similar_cases_returns (store : list ReferenceCase) (top_k : Z) :
  store <> [] -> same_dimension query_embedding store ->
  exists cases,
    find_similar_cases argsort row_cosine query_embedding (Some store) top_k = Ok cases /\
    Forall2 (entry_of row_cosine query_embedding store) (top_indices_of argsort (similarities_of row_cosine query_embedding store) top_k) cases.
Proof.
  intros Hne Hdim. destruct (array_same_dimension store Hne Hdim) as [Harr Hcols].
  destruct Hdim as [Hq _].
  unfold find_similar_cases.
  destruct store as [|item rest] eqn:Es; [contradiction|]. rewrite <- Es in *.
  replace (Nat.eqb (List.length store) 0) with false
    by (rewrite Es; reflexivity).
  rewrite Harr. cbn [rbind]. unfold Sklearn.cosine_similarity, Sklearn.check_array.
  cbn [Np.reshape_1_row Np.n_cols]. rewrite Hcols.
  replace (Nat.eqb (List.length query_embedding) 0) with false
    by (symmetry; apply Nat.eqb_neq; lia).
  cbn [rbind Np.n_cols Np.reshape_1_row]. rewrite Hcols, Nat.eqb_refl.
  unfold Np.reshape_1_row. cbn [map getitem nth_error rbind].
  rewrite map_map. fold (similarities_of row_cosine query_embedding store).
  apply for_each_ok. intros idx Hidx.
  apply (top_indices_in argsort argsort_ok) in Hidx.
  rewrite similarities_of_length in Hidx.
  destruct (nth_error (similarities_of row_cosine query_embedding store) idx) as [s|] eqn:Esim.
  2:{ apply nth_error_None in Esim. rewrite similarities_of_length in Esim. lia. }
  destruct (nth_error store idx) as [it|] eqn:Eit.
  2:{ apply nth_error_None in Eit. lia. }
  unfold getitem. rewrite Esim, Eit. cbn [rbind].
  eexists. split; [reflexivity|]. split; [exact Esim|].
  exists it. repeat split. exact Eit.
Qed.

(** On any other non-empty store it raises: [np.array] refuses a ragged
    list, [check_array] an array without columns, and
    [cosine_similarity] two arrays of different widths. *)
Lemma find_similar_cases_raises (store : list ReferenceCase) (top_k : Z) :
  store <> [] -> ~ same_dimension query_embedding store ->
  exists msg,
    find_similar_cases argsort row_cosine query_embedding (Some store) top_k
    = Raise (ValueError msg).
Proof.
  intros Hne Hbad. unfold find_similar_cases.
  destruct store as [|item rest] eqn:Es; [contradiction|]. rewrite <- Es in *.
  replace (Nat.eqb (List.length store) 0) with false
    by (rewrite Es; reflexivity).
  unfold Np.array.
  destruct (forallb _ (map embedding store)) eqn:Erect;
    [|eexists; reflexivity].
  cbn [rbind]. unfold Sklearn.cosine_similarity, Sklearn.check_array.
  cbn [Np.reshape_1_row Np.n_cols].
  destruct (Nat.eqb (List.length query_embedding) 0) eqn:Eq0;
    [eexists; reflexivity|].
  cbn [rbind].
  destruct (Nat.eqb (Np.n_cols (map embedding store)) 0) eqn:Ec0;
    [eexists; reflexivity|].
  cbn [rbind Np.n_cols Np.reshape_1_row].
  destruct (Nat.eqb (List.length query_embedding) (Np.n_cols (map embedding store))) eqn:Ecols;
    [|eexists; reflexivity].
  exfalso. apply Hbad. apply Nat.eqb_neq in Eq0. apply Nat.eqb_eq in Ecols.
  split; [lia|]. apply Forall_forall. intros c Hc.
  rewrite forallb_forall in Erect.
  specialize (Erect (embedding c) (in_map embedding _ _ Hc)).
  apply Nat.eqb_eq in Erect. lia.
Qed.

Lemma same_dimension_dec (store : list ReferenceCase) :
  {same_dimension query_embedding store} + {~ same_dimension query_embedding store}.
Proof.
  unfold same_dimension.
  destruct (le_dec 1 (List.length query_embedding)) as [Hq|Hq].
  - destruct (Forall_dec (fun item => List.length (embedding item)
                                      = List.length query_embedding)
                (fun item => Nat.eq_dec _ _) store) as [H|H].
    + left. split; assumption.
    + right. intros [_ H']. contradiction.
  - right. intros [H' _]. contradiction.
Qed.

(** Whatever it returns is the list of entries at the indices of
    line 40. *)
Lemma find_similar_cases_inv (store : list ReferenceCase) (top_k : Z)
    (cases : list SimilarCase) :
  find_similar_cases argsort row_cosine query_embedding (Some store) top_k = Ok cases ->
  (store = [] /\ cases = []) \/
  (store <> [] /\ same_dimension query_embedding store /\
   Forall2 (entry_of row_cosine query_embedding store) (top_indices_of argsort (similarities_of row_cosine query_embedding store) top_k) cases).
Proof.
  intro H. destruct store as [|item rest] eqn:Es.
  - left. split; [reflexivity|]. cbn in H. congruence.
  - right. rewrite <- Es in *.
    assert (Hne : store <> []) by (rewrite Es; discriminate).
    split; [exact Hne|].
    destruct (same_dimension_dec store) as [Hd|Hd].
    + split; [exact Hd|].
      destruct (find_similar_cases_returns store top_k Hne Hd) as (cs & Hcs & Hall).
      rewrite Hcs in H. injection H as <-. exact Hall.
    + destruct (find_similar_cases_raises store top_k Hne Hd) as (e & He).
      rewrite He in H. discriminate.
Qed.

End RankerFacts.

(** For [1 <= top_k] the function returns [min(top_k, N)] entries, built
    from as many different items of the store, and no item left out
    scores higher than an entry returned. *)
Lemma find_similar_cases_top_k
    (argsort : list Q -> list nat) (row_cosine : list Q -> list Q -> Q)
    (query_embedding : list Q) (store : list ReferenceCase) (top_k : Z) :
  Np.argsort_contract argsort ->
  store <> [] -> same_dimension query_embedding store -> (1 <= top_k)%Z ->
  exists cases,
    find_similar_cases argsort row_cosine query_embedding (Some store) top_k = Ok cases /\
    List.length cases = Nat.min (Z.to_nat top_k) (List.length store) /\
    let top := top_indices_of argsort (similarities_of row_cosine query_embedding store) top_k in
    Forall2 (entry_of row_cosine query_embedding store) top cases /\
    NoDup top /\
    forall idx item case,
      nth_error store idx = Some item -> ~ In idx top -> In case cases ->
      row_cosine query_embedding (embedding item) <= similarity_score case.
Proof.
  intros Hsort Hne Hdim Hk.
  destruct (find_similar_cases_returns argsort Hsort row_cosine query_embedding store top_k
              Hne Hdim) as (cases & Hret & Hall).
  exists cases. split; [exact Hret|].
  set (sims := similarities_of row_cosine query_embedding store) in *.
  destruct (top_indices_split argsort Hsort sims top_k) as (dropped & _ & Hlen & _).
  split.
  - rewrite <- (Forall2_length Hall), Hlen by assumption.
    unfold sims. rewrite similarities_of_length. reflexivity.
  - cbv zeta. split; [exact Hall|]. split; [apply top_indices_NoDup; exact Hsort|].
    intros idx item case Hidx Hout Hin.
    destruct (In_nth_error _ _ Hin) as [p Hp].
    destruct (Forall2_nth_error_r _ _ _ Hall p case Hp) as (j & Hj & Hsim & _).
    rewrite <- (nth_error_value_at _ _ _ Hsim).
    assert (Hv : value_at sims idx = row_cosine query_embedding (embedding item)).
    { apply nth_error_value_at. unfold sims, similarities_of.
      rewrite nth_error_map, Hidx. reflexivity. }
    rewrite <- Hv. apply (top_indices_dominate argsort Hsort sims top_k).
    + unfold sims. rewrite similarities_of_length.
      apply nth_error_Some. congruence.
    + assumption.
    + eapply nth_error_In. eassumption.
Qed.

(** * The Similarity Ranker *)

(** C1. Whatever sort [np.argsort] runs, on a non-empty store of the
    query's dimension [find_similar_cases] returns a list; and every list
    it returns, for any [top_k], is in descending order of
    [similarity_score]: each entry scores at least as much as the next
    one, and the entry at index 0 scores at least as much as every item
    of the store. *)
Theorem find_similar_cases_descending
    (argsort : list Q -> list nat) (row_cosine : list Q -> list Q -> Q)
    (query_embedding : list Q) (store : list ReferenceCase) (top_k : Z) :
  Np.argsort_contract argsort ->
  (store <> [] -> same_dimension query_embedding store ->
   exists cases,
     find_similar_cases argsort row_cosine query_embedding (Some store) top_k = Ok cases) /\
  (forall cases,
     find_similar_cases argsort row_cosine query_embedding (Some store) top_k = Ok cases ->
     (forall i a b,
        nth_error cases i = Some a -> nth_error cases (S i) = Some b ->
        similarity_score b <= similarity_score a) /\
     (forall best item,
        nth_error cases 0 = Some best -> In item store ->
        row_cosine query_embedding (embedding item) <= similarity_score best)).
Proof.
  intro Hsort. split.
  - intros Hne Hdim.
    destruct (find_similar_cases_returns argsort Hsort row_cosine query_embedding store
                top_k Hne Hdim) as (cases & Hret & _).
    exists cases. exact Hret.
  - intros cases Hret.
    apply (find_similar_cases_inv argsort Hsort) in Hret.
    destruct Hret as [[_ ->]|(Hne & Hdim & Hall)].
    { split; [intros [|i] a b H; discriminate | intros best item H; discriminate]. }
    set (sims := similarities_of row_cosine query_embedding store) in *.
    split.
    + intros i a b Ha Hb.
      destruct (Forall2_nth_error_r _ _ _ Hall i a Ha) as (ia & Hia & Hsa & _).
      destruct (Forall2_nth_error_r _ _ _ Hall (S i) b Hb) as (ib & Hib & Hsb & _).
      rewrite <- (nth_error_value_at _ _ _ Hsa), <- (nth_error_value_at _ _ _ Hsb).
      apply (StronglySorted_nth_error _ _ (top_indices_sorted argsort Hsort sims top_k)
               i (S i));
        [lia | assumption | assumption].
    + intros best item Hbest Hin.
      destruct (Forall2_nth_error_r _ _ _ Hall 0%nat best Hbest) as (ib & Hib & Hsb & _).
      destruct (In_nth_error _ _ Hin) as [n Hn].
      rewrite <- (nth_error_value_at _ _ _ Hsb).
      assert (Hv : value_at sims n = row_cosine query_embedding (embedding item)).
      { apply nth_error_value_at. unfold sims, similarities_of.
        rewrite nth_error_map, Hn. reflexivity. }
      rewrite <- Hv. apply (top_indices_head_max argsort Hsort sims top_k); [assumption|].
      unfold sims. rewrite similarities_of_length.
      apply nth_error_Some. congruence.
Qed.

Lemma find_similar_cases_descending_witness :
  exists cases,
    find_similar_cases Np.argsort_stable example_cosine query_09_01
      (Some [case_B []; case_A []; twin_first]) 2 = Ok cases /\
    forall i a b,
      nth_error cases i = Some a -> nth_error cases (S i) = Some b ->
      similarity_score b <= similarity_score a.
Proof.
  destruct (find_similar_cases_descending Np.argsort_stable example_cosine query_09_01
              [case_B []; case_A []; twin_first] 2 argsort_stable_contract)
    as [Hret Hord].
  destruct Hret as [cases Hcases].
  - discriminate.
  - split; [simpl; lia | repeat constructor].
  - exists cases. split; [exact Hcases|]. apply (Hord cases Hcases).
Defined.

(** C2, as stated, fails.  The two cases of the store have the same
    embedding, hence exactly the same score.  Under a sort that leaves
    equal values in index order, one of the sorts [np.argsort] may be,
    the entry of the later case comes first in the result. *)
Lemma tie_puts_later_entry_first :
  Np.argsort_contract Np.argsort_stable /\
  find_similar_cases Np.argsort_stable example_cosine [1; 0]
    (Some [twin_first; twin_second]) 3
  = Ok [ {| similarity_score := 1; case_id := IdStr "second";
            case_metadata := meta 60 [] |};
         {| similarity_score := 1; case_id := IdStr "first";
            case_metadata := meta 81 [] |} ].
Proof. split; [exact argsort_stable_contract | vm_compute; reflexivity]. Qed.

(** C2, amended.  The function has no rule of its own for ties.  Under
    every sort [np.argsort] may be, the result lists the entries at the
    indices [np.argsort(similarities)[-top_k:][::-1]], so any two entries
    stand in the reverse of the order the sort listed their indices in.
    That order is not fixed for equal values.  Under a sort that leaves
    them in index order, of two store positions [i < j] of exactly equal
    score the higher one, [j], comes first, and it is kept whenever [i]
    is; under a sort that leaves them in reverse index order the lower
    one, [i], comes first, and it is kept whenever [j] is.  Both sorts
    meet the contract of [np.argsort]. *)
Theorem find_similar_cases_ties
    (row_cosine : list Q -> list Q -> Q) (query_embedding : list Q)
    (store : list ReferenceCase) (top_k : Z) :
  let similarities := similarities_of row_cosine query_embedding store in
  (forall argsort cases,
     Np.argsort_contract argsort ->
     find_similar_cases argsort row_cosine query_embedding (Some store) top_k = Ok cases ->
     let top_indices := top_indices_of argsort similarities top_k in
     Forall2 (entry_of row_cosine query_embedding store) top_indices cases /\
     forall p p' i j,
       (p < p')%nat ->
       nth_error top_indices p = Some i -> nth_error top_indices p' = Some j ->
       listed_before (argsort similarities) j i) /\
  (Np.argsort_contract Np.argsort_stable /\
   let top_indices := top_indices_of Np.argsort_stable similarities top_k in
   forall i j,
     (i < j < List.length store)%nat ->
     value_at similarities i == value_at similarities j ->
     (forall p p',
        nth_error top_indices p = Some i -> nth_error top_indices p' = Some j ->
        (p' < p)%nat) /\
     (In i top_indices -> In j top_indices)) /\
  (Np.argsort_contract Np.argsort_ties_reversed /\
   let top_indices := top_indices_of Np.argsort_ties_reversed similarities top_k in
   forall i j,
     (i < j < List.length store)%nat ->
     value_at similarities i == value_at similarities j ->
     (forall p p',
        nth_error top_indices p = Some i -> nth_error top_indices p' = Some j ->
        (p < p')%nat) /\
     (In j top_indices -> In i top_indices)).
Proof.
  intro similarities. split; [|split].
  - intros argsort cases Hsort Hret top_indices. split.
    + apply (find_similar_cases_inv argsort Hsort) in Hret.
      destruct Hret as [[-> ->]|(_ & _ & Hall)]; [|exact Hall].
      unfold top_indices, similarities. simpl.
      rewrite (top_indices_of_nil argsort top_k Hsort). constructor.
    + intros p p' i j Hlt Hi Hj.
      exact (top_indices_listed argsort Hsort similarities top_k p p' i j Hlt Hi Hj).
  - split; [exact argsort_stable_contract|].
    intros top_indices i j [Hij Hj] Htie.
    pose proof (top_indices_sorted_by Np.argsort_stable argsort_stable_contract
                  similarities top_k (before similarities)
                  (argsort_stable_sorted similarities)) as Hs.
    assert (Hno : ~ before similarities j i).
    { intros [H|[_ H]]; [rewrite Htie in H; exact (Qlt_irrefl _ H) | lia]. }
    split.
    + intros p p' Hp Hp'.
      destruct (Nat.lt_trichotomy p p') as [H|[H|H]]; [| |exact H].
      * exfalso. apply Hno.
        exact (StronglySorted_nth_error _ _ Hs p p' i j H Hp Hp').
      * subst p'. rewrite Hp in Hp'. injection Hp' as ->. lia.
    + intro Hin.
      destruct (in_dec Nat.eq_dec j top_indices) as [Hjn|Hjn]; [exact Hjn|].
      exfalso. apply Hno.
      apply (top_indices_dropped_by Np.argsort_stable argsort_stable_contract
               similarities top_k (before similarities));
        [apply argsort_stable_sorted | | exact Hjn | exact Hin].
      unfold similarities. rewrite similarities_of_length. exact Hj.
  - split; [exact argsort_ties_reversed_contract|].
    intros top_indices i j [Hij Hj] Htie.
    pose proof (top_indices_sorted_by Np.argsort_ties_reversed
                  argsort_ties_reversed_contract
                  similarities top_k (before_reversed similarities)
                  (argsort_ties_reversed_sorted similarities)) as Hs.
    assert (Hno : ~ before_reversed similarities i j).
    { intros [H|[_ H]]; [rewrite Htie in H; exact (Qlt_irrefl _ H) | lia]. }
    split.
    + intros p p' Hp Hp'.
      destruct (Nat.lt_trichotomy p p') as [H|[H|H]]; [exact H| |].
      * subst p'. rewrite Hp in Hp'. injection Hp' as ->. lia.
      * exfalso. apply Hno.
        exact (StronglySorted_nth_error _ _ Hs p' p j i H Hp' Hp).
    + intro Hin.
      destruct (in_dec Nat.eq_dec i top_indices) as [Hin'|Hin']; [exact Hin'|].
      exfalso. apply Hno.
      apply (top_indices_dropped_by Np.argsort_ties_reversed
               argsort_ties_reversed_contract
               similarities top_k (before_reversed similarities));
        [apply argsort_ties_reversed_sorted | | exact Hin' | exact Hin].
      unfold similarities. rewrite similarities_of_length. lia.
Qed.

Lemma find_similar_cases_ties_witness :
  find_similar_cases Np.argsort_stable example_cosine [1; 0]
    (Some [twin_first; twin_second]) 1
  = Ok [ {| similarity_score := 1; case_id := IdStr "second";
            case_metadata := meta 60 [] |} ] /\
  find_similar_cases Np.argsort_ties_reversed example_cosine [1; 0]
    (Some [twin_first; twin_second]) 1
  = Ok [ {| similarity_score := 1; case_id := IdStr "first";
            case_metadata := meta 81 [] |} ] /\
  listed_before
    (Np.argsort_stable (similarities_of example_cosine [1; 0] [twin_first; twin_second]))
    0 1.
Proof.
  split; [vm_compute; reflexivity|]. split; [vm_compute; reflexivity|].
  refine (proj2 (proj1 (find_similar_cases_ties example_cosine [1; 0]
                          [twin_first; twin_second] 3)
                   Np.argsort_stable
                   [ {| similarity_score := 1; case_id := IdStr "second";
                        case_metadata := meta 60 [] |};
                     {| similarity_score := 1; case_id := IdStr "first";
                        case_metadata := meta 81 [] |} ]
                   argsort_stable_contract _)
            0%nat 1%nat 1%nat 0%nat _ _ _).
  - vm_compute. reflexivity.
  - lia.
  - vm_compute. reflexivity.
  - vm_compute. reflexivity.
Defined.

(** C3, at [top_k = 0].  The slice [[-top_k:]] is then [[0:]], the whole
    array: whatever sort [np.argsort] runs, on a non-empty store of the
    query's dimension the function returns one entry per item of the
    store, not [min(0, N) = 0] entries. *)
Theorem find_similar_cases_top_k_zero
    (argsort : list Q -> list nat) (row_cosine : list Q -> list Q -> Q)
    (query_embedding : list Q) (store : list ReferenceCase) :
  Np.argsort_contract argsort ->
  store <> [] -> same_dimension query_embedding store ->
  exists cases,
    find_similar_cases argsort row_cosine query_embedding (Some store) 0 = Ok cases /\
    List.length cases = List.length store.
Proof.
  intros Hsort Hne Hdim.
  destruct (find_similar_cases_returns argsort Hsort row_cosine query_embedding store 0
              Hne Hdim) as (cases & Hret & Hall).
  exists cases. split; [exact Hret|].
  rewrite <- (Forall2_length Hall).
  destruct (top_indices_split argsort Hsort
              (similarities_of row_cosine query_embedding store) 0)
    as (dropped & Heq & _ & Hnil).
  rewrite (Hnil eq_refl) in Heq. simpl in Heq.
  rewrite <- (length_rev (top_indices_of _ _ _)), <- Heq, (argsort_length argsort Hsort).
  apply similarities_of_length.
Qed.

Lemma find_similar_cases_top_k_zero_witness :
  exists cases,
    find_similar_cases Np.argsort_stable example_cosine query_09_01 (Some [case_A []; case_B []]) 0
    = Ok cases /\
    List.length cases = 2%nat.
Proof.
  apply (find_similar_cases_top_k_zero Np.argsort_stable example_cosine query_09_01
           [case_A []; case_B []]).
  - exact argsort_stable_contract.
  - discriminate.
  - split; [simpl; lia | repeat constructor].
Defined.

(** C4. Without a store ([None]) and on a store without entries the
    function returns the empty list, for every query and every [top_k]. *)
Theorem find_similar_cases_no_store
    (argsort : list Q -> list nat) (row_cosine : list Q -> list Q -> Q)
    (query_embedding : list Q) (top_k : Z) :
  find_similar_cases argsort row_cosine query_embedding None top_k = Ok [] /\
  find_similar_cases argsort row_cosine query_embedding (Some []) top_k = Ok [].
Proof. split; reflexivity. Qed.

(** C8. When some case of the store has an embedding whose length is not
    the length of the query, the function raises a [ValueError]: it
    returns no neighbours at all. *)
Theorem find_similar_cases_dimension_mismatch
    (argsort : list Q -> list nat) (row_cosine : list Q -> list Q -> Q)
    (query_embedding : list Q) (store : list ReferenceCase) (top_k : Z) :
  (exists item, In item store /\
                List.length (embedding item) <> List.length query_embedding) ->
  exists msg,
    find_similar_cases argsort row_cosine query_embedding (Some store) top_k
    = Raise (ValueError msg).
Proof.
  intros (item & Hin & Hlen).
  apply find_similar_cases_raises.
  - intros ->. destruct Hin.
  - intros [_ Hall]. rewrite Forall_forall in Hall. apply Hlen. auto.
Qed.

Lemma find_similar_cases_dimension_mismatch_witness :
  exists msg,
    find_similar_cases Np.argsort_stable example_cosine [0.9; 0.1; 0.3]
      (Some [case_A []; case_B []]) 3
    = Raise (ValueError msg).
Proof.
  apply find_similar_cases_dimension_mismatch.
  exists (case_A []). split; [left; reflexivity | simpl; lia].
Defined.

(** * [get_gabarito_guidance] and [load_gabarito_embeddings] *)

Local Open Scope string_scope.

(** Whatever the store, the client and its answer, the function returns
    a string: every exception raised inside the [try] is handled. *)
Lemma get_gabarito_guidance_returns
    (argsort : list Q -> list nat) (row_cosine : list Q -> list Q -> Q)
    (GABARITO_EMBEDDINGS : option (list ReferenceCase))
    (client_embeddings : string -> string -> result (list (list Q)))
    (transcript_text : string) (log : list call) :
  exists text log',
    get_gabarito_guidance argsort row_cosine GABARITO_EMBEDDINGS client_embeddings
      transcript_text log = (Ok text, log').
Proof.
  unfold get_gabarito_guidance.
  destruct GABARITO_EMBEDDINGS as [store|]; [|eexists; eexists; reflexivity].
  unfold try_except.
  match goal with
  | |- context [match ?body log with _ => _ end] => destruct (body log) as [[text|e] log']
  end; eexists; eexists; reflexivity.
Qed.

(** C5. With a store loaded, when the call to the embedding service
    raises, [get_gabarito_guidance] does not raise: it calls
    [st.warning] with the message of the exception and returns the empty
    string. *)
Theorem get_gabarito_guidance_embedding_failure
    (argsort : list Q -> list nat) (row_cosine : list Q -> list Q -> Q)
    (store : list ReferenceCase)
    (client_embeddings : string -> string -> result (list (list Q)))
    (transcript_text : string) (e : exn) (log : list call) :
  client_embeddings transcript_text "text-embedding-3-small" = Raise e ->
  get_gabarito_guidance argsort row_cosine (Some store) client_embeddings transcript_text log
  = (Ok "",
     (log ++ [embeddings_create transcript_text "text-embedding-3-small";
              st_warning ("⚠️ Erro ao buscar casos similares: " ++ str_of_exn e)])%list).
Proof.
  intro Hfail.
  unfold get_gabarito_guidance, try_except, bind, client_embeddings_create, st, ret.
  rewrite Hfail. rewrite <- app_assoc. reflexivity.
Qed.

Lemma get_gabarito_guidance_embedding_failure_witness :
  get_gabarito_guidance Np.argsort_stable example_cosine (Some [case_A []; case_B []])
    (fun _ _ => Raise (OtherException "Connection error.")) "bom dia" []
  = (Ok "",
     [embeddings_create "bom dia" "text-embedding-3-small";
      st_warning "⚠️ Erro ao buscar casos similares: Connection error."]).
Proof.
  apply (get_gabarito_guidance_embedding_failure Np.argsort_stable example_cosine
           [case_A []; case_B []]
           (fun _ _ => Raise (OtherException "Connection error."))
           "bom dia" (OtherException "Connection error.") []).
  reflexivity.
Defined.

(** C10. When [GABARITO_EMBEDDINGS] is [None], [get_gabarito_guidance]
    returns the empty string and makes no call at all: the log comes back
    as it was, without an [embeddings_create], and the result does not
    depend on the client. *)
Theorem get_gabarito_guidance_absent_store
    (argsort : list Q -> list nat) (row_cosine : list Q -> list Q -> Q)
    (client_embeddings other_client : string -> string -> result (list (list Q)))
    (transcript_text : string) (log : list call) :
  get_gabarito_guidance argsort row_cosine None client_embeddings transcript_text log
  = (Ok "", log) /\
  get_gabarito_guidance argsort row_cosine None client_embeddings transcript_text log
  = get_gabarito_guidance argsort row_cosine None other_client transcript_text log.
Proof. split; reflexivity. Qed.

(** C7. When the snapshot file is missing, [load_gabarito_embeddings]
    returns [None] after an [st.warning]; when reading it raises anything
    else, it reports the exception with [st.error] and returns [None].
    In neither case does it raise. *)
Theorem load_gabarito_embeddings_fallback :
  (forall msg log,
     load_gabarito_embeddings (Raise (FileNotFoundError msg)) log
     = (Ok None,
        (log ++ [st_warning "⚠️ Arquivo gabarito_embeddings.pkl não encontrado. Sistema funcionando sem referência."])%list)) /\
  (forall e log,
     is_FileNotFoundError e = false ->
     load_gabarito_embeddings (Raise e) log
     = (Ok None,
        (log ++ [st_error ("❌ Erro ao carregar gabarito: " ++ str_of_exn e)])%list)).
Proof.
  split.
  - intros msg log. reflexivity.
  - intros e log He.
    unfold load_gabarito_embeddings, try_except, bind, lift, st, ret.
    rewrite He. reflexivity.
Qed.

Lemma load_gabarito_embeddings_fallback_witness :
  load_gabarito_embeddings (Raise (OtherException "pickle data was truncated")) []
  = (Ok None, [st_error "❌ Erro ao carregar gabarito: pickle data was truncated"]).
Proof.
  apply (proj2 load_gabarito_embeddings_fallback
           (OtherException "pickle data was truncated") []).
  reflexivity.
Defined.

Local Close Scope string_scope.

(** * The calibration text *)

Local Open Scope string_scope.

Lemma append_assoc (a b c : string) : (a ++ b) ++ c = a ++ (b ++ c).
Proof. induction a as [|ch a IH]; simpl; [reflexivity | rewrite IH; reflexivity]. Qed.

Lemma append_nil_r (a : string) : a ++ "" = a.
Proof. induction a as [|ch a IH]; simpl; [reflexivity | rewrite IH; reflexivity]. Qed.

Lemma prefix_append (needle rest : string) : String.prefix needle (needle ++ rest) = true.
Proof.
  induction needle as [|ch needle IH]; simpl.
  - destruct rest; reflexivity.
  - destruct (ascii_dec ch ch); [assumption | contradiction].
Qed.

Lemma prefix_append_l (needle s t : string) :
  String.prefix needle s = true -> String.prefix needle (s ++ t) = true.
Proof.
  revert s. induction needle as [|ch needle IH]; intros s H.
  - destruct (s ++ t); reflexivity.
  - destruct s as [|c s]; simpl in *; [discriminate|].
    destruct (ascii_dec ch c); [auto | discriminate].
Qed.

Lemma contains_prefix (needle s : string) :
  String.prefix needle s = true -> contains needle s = true.
Proof. intro H. destruct s; cbn [contains]; rewrite H; reflexivity. Qed.

Lemma contains_append_r (needle p s : string) :
  contains needle s = true -> contains needle (p ++ s) = true.
Proof.
  intro H. induction p as [|ch p IH]; [assumption|].
  change (String ch p ++ s) with (String ch (p ++ s)). cbn [contains].
  rewrite IH. destruct (String.prefix _ _); reflexivity.
Qed.

Lemma contains_append_l (needle s t : string) :
  contains needle s = true -> contains needle (s ++ t) = true.
Proof.
  induction s as [|ch s IH]; intro H.
  - destruct needle; [|discriminate]. destruct t; reflexivity.
  - cbn [contains] in H.
    destruct (String.prefix needle (String ch s)) eqn:E.
    + apply contains_prefix. apply (prefix_append_l _ _ t) in E. exact E.
    + change (String ch s ++ t) with (String ch (s ++ t)).
      cbn [contains]. rewrite (IH H).
      destruct (String.prefix needle (String ch (s ++ t))); reflexivity.
Qed.

(** A needle inside the middle part is inside the whole. *)
Lemma contains_middle (needle a s b : string) :
  contains needle s = true -> contains needle (a ++ s ++ b) = true.
Proof.
  intro H. apply contains_append_r, contains_append_l. assumption.
Qed.

Lemma contains_join (needle block : string) (blocks : list string) :
  In block blocks -> contains needle block = true ->
  contains needle (join blocks) = true.
Proof.
  induction blocks as [|b blocks IH]; intros Hin H; [destruct Hin|].
  simpl. destruct Hin as [->|Hin].
  - apply contains_append_l. assumption.
  - apply contains_append_r. auto.
Qed.

(** The inner loop appends one line per checklist item. *)
Lemma add_checklist_lines (items : list (string * bool)) (guidance : string) :
  fold_left add_checklist_line items guidance
  = guidance ++ join (map checklist_line items).
Proof.
  revert guidance. induction items as [|[criterio resposta] items IH]; intro guidance.
  - cbn [fold_left map join fold_right]. rewrite append_nil_r. reflexivity.
  - cbn [fold_left map join fold_right]. rewrite IH.
    unfold add_checklist_line, checklist_line. cbn [fst snd].
    rewrite !append_assoc. reflexivity.
Qed.

(** The outer loop appends one block per entry, numbered from [i] on. *)
Lemma add_cases_blocks (cases : list SimilarCase) :
  Forall well_formed cases ->
  forall guidance i,
  exists blocks,
    add_cases guidance i cases = Ok (guidance ++ join blocks) /\
    List.length blocks = List.length cases /\
    forall n case,
      nth_error cases n = Some case ->
      exists block, nth_error blocks n = Some block /\
                    case_block (i + Z.of_nat n) case block.
Proof.
  induction 1 as [|case cases [Hp Hc] _ IH]; intros guidance i.
  - exists []%list. cbn [add_cases join fold_right]. rewrite append_nil_r.
    split; [reflexivity|]. split; [reflexivity|].
    intros [|n] c Hn; discriminate.
  - destruct (pontuacao_esperada (case_metadata case)) as [pontuacao|] eqn:Ep;
      [|contradiction].
    destruct (checklist (case_metadata case)) as [items|] eqn:Ec; [|contradiction].
    cbn [add_cases]. rewrite Ep, Ec. cbn [meta_getitem rbind].
    rewrite add_checklist_lines.
    match goal with
    | |- context [add_cases ?g ?j cases] => destruct (IH g j) as (blocks & Hrun & Hlen & Hnth)
    end.
    set (block := case_header i case
                    ++ ("Pontuação correta: " ++ str_of_int pontuacao ++ "/81 pontos" ++ nl)
                    ++ ("Respostas corretas validadas:" ++ nl)
                    ++ join (map checklist_line items) ++ nl).
    exists (block :: blocks)%list. split; [|split].
    + rewrite Hrun. f_equal. unfold block, case_header.
      cbn [join fold_right]. rewrite !append_assoc. reflexivity.
    + cbn [List.length]. rewrite Hlen. reflexivity.
    + intros [|n] c Hn; cbn [nth_error] in Hn |- *.
      * injection Hn as <-. exists block. split; [reflexivity|].
        exists pontuacao, items. rewrite Z.add_0_r. repeat split; assumption.
      * destruct (Hnth n c Hn) as (b & Hb & Hblock).
        exists b. split; [exact Hb|].
        replace (i + Z.of_nat (S n))%Z with (i + 1 + Z.of_nat n)%Z by lia.
        exact Hblock.
Qed.

Lemma case_block_contains (i : Z) (case : SimilarCase) (block : string) :
  case_block i case block ->
  contains (str_of_id (case_id case)) block = true /\
  contains (percentage case) block = true.
Proof.
  intros (pontuacao & items & _ & _ & ->). unfold case_header, percentage. split.
  - apply contains_append_l.
    do 3 apply contains_append_r. apply contains_prefix, prefix_append.
  - apply contains_append_l.
    do 5 apply contains_append_r.
    change ("%):" ++ nl) with ("%" ++ "):" ++ nl).
    rewrite <- append_assoc. apply contains_prefix, prefix_append.
Qed.

Lemma dict_get_missing (d : list (string * string)) (key default : string) :
  (forall v, ~ In (key, v) d) -> dict_get d key default = default.
Proof.
  induction d as [|[k v] d IH]; intro Hmiss; [reflexivity|].
  cbn [dict_get]. destruct (String.eqb k key) eqn:E.
  - apply String.eqb_eq in E. subst k. exfalso. apply (Hmiss v). left. reflexivity.
  - apply IH. intros v' Hin. apply (Hmiss v'). right. assumption.
Qed.

(** C6. The formatting part returns the empty string for the empty
    list.  For a non-empty list of well-formed entries it does not raise:
    it returns the header, then exactly one block per entry in the order
    of the list, then the trailer.  The block of the entry at position
    [n] is numbered [n + 1]; its header line shows, once, the identifier
    of the entry and its similarity, the float [similarity_score * 100],
    as a percentage with one decimal; so both occur in the text.  A
    checklist key that the mapping lacks is printed as it is. *)
Theorem format_guidance_total :
  format_guidance [] = Ok "" /\
  (forall cases,
     cases <> []%list -> Forall well_formed cases ->
     exists blocks text,
       format_guidance cases = Ok text /\
       text = guidance_header ++ join blocks ++ guidance_trailer /\
       List.length blocks = List.length cases /\
       forall n case,
         nth_error cases n = Some case ->
         (exists block, nth_error blocks n = Some block /\
                        case_block (Z.of_nat n + 1) case block) /\
         contains (str_of_id (case_id case)) text = true /\
         contains (percentage case) text = true) /\
  (forall guidance criterio resposta,
     (forall label, ~ In (criterio, label) checklist_mapping) ->
     add_checklist_line guidance (criterio, resposta)
     = guidance ++ "  • " ++ criterio ++ ": "
                ++ (if resposta then "✓ SIM" else "✗ NÃO") ++ nl).
Proof.
  split; [reflexivity|]. split.
  - intros cases Hne Hwf.
    destruct (add_cases_blocks cases Hwf guidance_header 1)
      as (blocks & Hrun & Hlen & Hnth).
    exists blocks, (guidance_header ++ join blocks ++ guidance_trailer).
    split; [|split; [reflexivity|split; [exact Hlen|]]].
    + unfold format_guidance. destruct cases as [|c cs]; [contradiction|].
      rewrite Hrun. cbn [rbind]. rewrite append_assoc. reflexivity.
    + intros n case Hn. destruct (Hnth n case Hn) as (block & Hb & Hblock).
      rewrite Z.add_comm in Hblock.
      destruct (case_block_contains _ _ _ Hblock) as [Hid Hpct].
      assert (Hin : In block blocks) by (eapply nth_error_In; eassumption).
      split; [exists block; split; assumption|].
      split; apply contains_middle; apply (contains_join _ block); assumption.
  - intros guidance criterio resposta Hmiss. unfold add_checklist_line.
    rewrite (dict_get_missing _ _ _ Hmiss). reflexivity.
Qed.

Lemma format_guidance_total_witness :
  percentage (entry_A float_0_0025 [("13_cortesia", true)]) = "0.2%" /\
  exists blocks text,
    format_guidance [entry_A float_0_0025 [("13_cortesia", true)]] = Ok text /\
    text = guidance_header ++ join blocks ++ guidance_trailer /\
    List.length blocks = 1%nat /\
    contains "0.2%" text = true.
Proof.
  assert (Hpct : percentage (entry_A float_0_0025 [("13_cortesia", true)]) = "0.2%")
    by (vm_compute; reflexivity).
  split; [exact Hpct|].
  destruct (proj1 (proj2 format_guidance_total)
              [entry_A float_0_0025 [("13_cortesia", true)]])
    as (blocks & text & Hrun & Htext & Hlen & Hnth).
  - discriminate.
  - repeat constructor; discriminate.
  - exists blocks, text. repeat split; try assumption.
    destruct (Hnth 0%nat _ eq_refl) as (_ & _ & Hc).
    rewrite Hpct in Hc. exact Hc.
Defined.

(** * The end-to-end example *)

(** A number closer to the integer [n] than one half rounds to [n]. *)
Lemma round_half_even_near (x : Q) (n : Z) :
  inject_Z n - (1 # 2) < x -> x < inject_Z n + (1 # 2) ->
  round_half_even x = n.
Proof.
  intros Hlo Hhi. unfold round_half_even.
  pose proof (Qfloor_le x) as Hf1. pose proof (Qlt_floor x) as Hf2.
  set (f := Qfloor x) in *. rewrite inject_Z_plus in Hf2.
  change (inject_Z 1) with 1%Q in Hf2.
  assert (Hle : (f <= n)%Z).
  { destruct (Z_le_gt_dec f n) as [H|H]; [exact H|].
    assert (H' : (n + 1 <= f)%Z) by lia.
    rewrite Zle_Qle, inject_Z_plus in H'. change (inject_Z 1) with 1%Q in H'.
    exfalso. lra. }
  assert (Hge : (n <= f + 1)%Z).
  { destruct (Z_le_gt_dec n (f + 1)) as [H|H]; [exact H|].
    assert (H' : (f + 1 + 1 <= n)%Z) by lia.
    rewrite Zle_Qle, !inject_Z_plus in H'. change (inject_Z 1) with 1%Q in H'.
    exfalso. lra. }
  assert (Hcase : f = n \/ (f + 1)%Z = n) by lia.
  destruct Hcase as [E|E].
  - rewrite E in *. replace (Qcompare (x - inject_Z n) (1 # 2)) with Lt; [reflexivity|].
    assert (H : x - inject_Z n < 1 # 2) by lra.
    symmetry. exact (proj1 (Qlt_alt _ _) H).
  - assert (Ef : inject_Z n == inject_Z f + 1).
    { rewrite <- E, inject_Z_plus. reflexivity. }
    replace (Qcompare (x - inject_Z f) (1 # 2)) with Gt; [exact E|].
    assert (H : 1 # 2 < x - inject_Z f) by lra.
    symmetry. exact (proj1 (Qgt_alt _ _) H).
Qed.

(** Rounding to the nearest integer moves a number by at most one half. *)
Lemma round_half_even_error (y : Q) :
  inject_Z (round_half_even y) - y <= 1 # 2 /\ y - inject_Z (round_half_even y) <= 1 # 2.
Proof.
  unfold round_half_even.
  pose proof (Qfloor_le y) as Hf1. pose proof (Qlt_floor y) as Hf2.
  set (f := Qfloor y) in *. rewrite inject_Z_plus in Hf2.
  change (inject_Z 1) with 1%Q in Hf2.
  destruct (Qcompare (y - inject_Z f) (1 # 2)) eqn:E.
  - apply Qeq_alt in E.
    destruct (Z.even f); [|rewrite inject_Z_plus; change (inject_Z 1) with 1%Q]; lra.
  - apply Qlt_alt in E. lra.
  - apply Qgt_alt in E. rewrite inject_Z_plus. change (inject_Z 1) with 1%Q. lra.
Qed.

Lemma two_power_pos (e : Z) : 0 < 2 ^ e.
Proof. apply Qpower_0_lt. lra. Qed.

(** [2 ^ ilog2 x <= x] for a positive [x]. *)
Lemma ilog2_le (x : Q) : 0 < x -> 2 ^ PyFloat.ilog2 x <= x.
Proof.
  intro Hx. unfold PyFloat.ilog2.
  set (a := Z.log2 (Qnum x)). set (b := Z.log2 (Zpos (Qden x))).
  destruct (Qle_bool (2 ^ (a - b)) x) eqn:E; [apply Qle_bool_iff; exact E|].
  destruct x as [n d]. cbn [Qnum Qden] in *.
  assert (Hn : (0 < n)%Z).
  { unfold Qlt in Hx. cbn in Hx. lia. }
  assert (Ha : (2 ^ a <= n)%Z) by (apply Z.log2_spec; exact Hn).
  assert (Hb : (Zpos d < 2 ^ (b + 1))%Z).
  { unfold b. replace (Z.log2 (Zpos d) + 1)%Z with (Z.succ (Z.log2 (Zpos d))) by lia.
    apply Z.log2_spec. lia. }
  assert (Ha0 : (0 <= a)%Z) by apply Z.log2_nonneg.
  assert (Hb0 : (0 <= b)%Z) by apply Z.log2_nonneg.
  replace (a - b - 1)%Z with (a - (b + 1))%Z by lia.
  rewrite Qpower_minus by lra.
  change 2 with (inject_Z 2).
  rewrite <- !Zpower_Qpower by lia.
  assert (Hpb : (0 < 2 ^ (b + 1))%Z) by (apply Z.pow_pos_nonneg; lia).
  set (A := (2 ^ a)%Z) in *. set (B := (2 ^ (b + 1))%Z) in *.
  clearbody A B. clear E Hx.
  apply Qle_shift_div_r.
  - change 0 with (inject_Z 0). rewrite <- Zlt_Qlt. exact Hpb.
  - unfold Qle, Qmult, inject_Z. cbn [Qnum Qden]. rewrite Pos.mul_1_r, !Z.mul_1_r.
    nia.
Qed.

(** Rounding a positive number below [2 ^ (k + 1)] moves it by at most
    half a unit in the last place of that binade. *)
Lemma round_nonneg_close (x : Q) (k : Z) :
  0 < x -> x < 2 ^ (k + 1) -> (-1022 <= k <= 1022)%Z ->
  exists r, PyFloat.round_nonneg x = PyFloat.Finite r /\
            x - 2 ^ (k - 53) <= r /\ r <= x + 2 ^ (k - 53).
Proof.
  intros Hx Hhi Hk. unfold PyFloat.round_nonneg.
  replace (Qle_bool x 0) with false
    by (symmetry; apply not_true_is_false; intro H; apply Qle_bool_iff in H; lra).
  pose proof (ilog2_le x Hx) as He. set (e := PyFloat.ilog2 x) in *.
  assert (Hek : (e <= k)%Z).
  { assert (H : (e < k + 1)%Z); [|lia].
    apply (Qpower_lt_compat_l_inv 2); [|lra]. lra. }
  set (q := Z.max (e - 52) (-1074)).
  assert (Hq : (q <= k - 52)%Z) by (unfold q; lia).
  pose proof (two_power_pos q) as Hpq.
  pose proof (round_half_even_error (x / 2 ^ q)) as [Hm1 Hm2].
  set (m := round_half_even (x / 2 ^ q)) in *.
  assert (Hstep : 2 ^ q * (1 # 2) <= 2 ^ (k - 53)).
  { replace (k - 53)%Z with ((k - 52) + -1)%Z by lia.
    rewrite Qpower_plus by lra. change (2 ^ (-1)) with (1 # 2).
    apply Qmult_le_compat_r; [|lra]. apply Qpower_le_compat_l; [exact Hq | lra]. }
  assert (Hx' : x / 2 ^ q * 2 ^ q == x) by (field; lra).
  set (y := x / 2 ^ q) in *. set (P := 2 ^ q) in *.
  assert (Hlo : x - P * (1 # 2) <= inject_Z m * P).
  { assert (H : (y - (1 # 2)) * P <= inject_Z m * P)
      by (apply Qmult_le_compat_r; lra).
    lra. }
  assert (Hup : inject_Z m * P <= x + P * (1 # 2)).
  { assert (H : inject_Z m * P <= (y + (1 # 2)) * P)
      by (apply Qmult_le_compat_r; lra).
    lra. }
  replace (Qle_bool (2 ^ 1024) (inject_Z m * P)) with false.
  - eexists. split; [reflexivity|]. rewrite Qred_correct. split; lra.
  - symmetry. apply not_true_is_false. intro H. apply Qle_bool_iff in H.
    assert (Hk1 : 2 ^ (k + 1) <= 2 ^ 1023) by (apply Qpower_le_compat_l; [lia | lra]).
    assert (Hk2 : 2 ^ (k - 53) <= 2 ^ 1023) by (apply Qpower_le_compat_l; [lia | lra]).
    assert (H24 : 2 ^ 1024 == 2 ^ 1023 + 2 ^ 1023).
    { replace 1024%Z with (1023 + 1)%Z by lia. rewrite Qpower_plus by lra.
      change (2 ^ 1) with 2. ring. }
    lra.
Qed.

(** A score between 0.99388 and 0.99389 is printed as 99.4. *)
Lemma format_1f_99_4 (s : Q) :
  0.99388 <= s -> s <= 0.99389 -> PyFloat.format_1f (PyFloat.mul s 100) = "99.4".
Proof.
  intros Hlo Hhi. unfold PyFloat.mul, PyFloat.round.
  replace (Qle_bool 0 (s * 100)) with true by (symmetry; apply Qle_bool_iff; lra).
  destruct (round_nonneg_close (s * 100) 6) as (r & -> & Hr1 & Hr2); [lra| |lia|].
  { change (2 ^ (6 + 1)) with 128. lra. }
  assert (Hu : 2 ^ (6 - 53) <= 1 # 1000).
  { apply Qle_bool_iff. vm_compute. reflexivity. }
  cbn [PyFloat.format_1f]. unfold format_1f.
  rewrite (round_half_even_near (r * 10) 994).
  - replace (Qle_bool 0 r) with true; [reflexivity|].
    symmetry. apply Qle_bool_iff. lra.
  - unfold inject_Z. lra.
  - unfold inject_Z. lra.
Qed.

(** Two values, the second smaller: every sort puts its index first. *)
Lemma argsort_pair (argsort : list Q -> list nat) (a b : Q) :
  Np.argsort_contract argsort -> b < a -> argsort [a; b]%list = [1%nat; 0%nat]%list.
Proof.
  intros Hok H. destruct (Hok [a; b]%list) as [Hp Hs]. cbn [List.length seq] in Hp.
  apply Permutation_sym, Permutation_length_2_inv in Hp.
  destruct Hp as [Hp|Hp]; [|exact Hp].
  rewrite Hp in Hs. inversion Hs as [|? ? _ Hall]; subst.
  inversion Hall as [|? ? Hle _]; subst. cbn [nth] in Hle.
  exfalso. exact (Qlt_not_le _ _ H Hle).
Qed.

(** The bounds assumed of the kernel in the example enclose the cosines
    themselves: squared and multiplied out, [lo² |q|² |a|² <= (q·a)² <=
    hi² |q|² |a|²] for the query against either case. *)
Lemma example_bounds_enclose_cosine :
  let q := query_09_01 in
  let encloses (lo hi : Q) (a : list Q) :=
    Qle_bool (lo * lo * (Sklearn.dot q q * Sklearn.dot a a))
             (Sklearn.dot q a * Sklearn.dot q a)
    && Qle_bool (Sklearn.dot q a * Sklearn.dot q a)
                (hi * hi * (Sklearn.dot q q * Sklearn.dot a a)) in
  encloses 0.99388 0.99389 [1; 0]%list = true /\
  encloses 0.11043 0.11044 [0; 1]%list = true.
Proof. split; vm_compute; reflexivity. Qed.

(** C9. The store holds case A, embedding [1, 0], expected score 75, and
    case B, embedding [0, 1], expected score 40; the query is
    [0.9, 0.1] and [top_k] is 1.  With a kernel that gives the two
    cosines to five decimals, and whatever sort [np.argsort] runs,
    [find_similar_cases] returns exactly one
    entry, that of case A, with a score within 0.0005 of 0.994, and the
    text formatted from that result contains [ID A], [99.4%] and
    [75/81]. *)
Theorem end_to_end_example
    (argsort : list Q -> list nat) (row_cosine : list Q -> list Q -> Q)
    (items_A items_B : list (string * bool)) :
  Np.argsort_contract argsort ->
  0.99388 <= row_cosine query_09_01 [1; 0] /\
  row_cosine query_09_01 [1; 0] <= 0.99389 ->
  0.11043 <= row_cosine query_09_01 [0; 1] /\
  row_cosine query_09_01 [0; 1] <= 0.11044 ->
  exists score text,
    find_similar_cases argsort row_cosine query_09_01
      (Some [case_A items_A; case_B items_B]%list) 1
    = Ok [entry_A score items_A]%list /\
    0.9935 <= score /\ score <= 0.9945 /\
    format_guidance [entry_A score items_A] = Ok text /\
    contains "ID A" text = true /\
    contains "99.4%" text = true /\
    contains "75/81" text = true.
Proof.
  intros Hsort [HA1 HA2] [HB1 HB2].
  set (sA := row_cosine query_09_01 [1; 0]%list) in *.
  set (sB := row_cosine query_09_01 [0; 1]%list) in *.
  set (store := [case_A items_A; case_B items_B]%list).
  assert (Hfind : find_similar_cases argsort row_cosine query_09_01 (Some store) 1
                  = Ok [entry_A sA items_A]%list).
  { destruct (find_similar_cases_returns argsort Hsort row_cosine query_09_01 store 1)
      as (cases & Hret & Hall).
    - discriminate.
    - split; [simpl; lia | repeat constructor].
    - rewrite Hret. f_equal.
      assert (Htop : top_indices_of argsort (similarities_of row_cosine query_09_01 store) 1
                     = [0%nat]%list).
      { unfold top_indices_of, similarities_of, store. cbn [map embedding case_A case_B].
        fold sA sB. rewrite (argsort_pair argsort sA sB Hsort) by lra. reflexivity. }
      rewrite Htop in Hall.
      inversion Hall as [|idx c l l' Hentry Hrest]; subst.
      inversion Hrest; subst.
      destruct Hentry as (Hs & item & Hitem & Hid & Hmeta).
      cbn in Hs, Hitem. injection Hs as Hs. injection Hitem as <-.
      destruct c as [s i m]. cbn in Hs, Hid, Hmeta. subst. reflexivity. }
  assert (Hwf : Forall well_formed [entry_A sA items_A]%list)
    by (repeat constructor; discriminate).
  destruct (add_cases_blocks _ Hwf guidance_header 1) as (blocks & Hrun & Hlen & Hnth).
  destruct (Hnth 0%nat _ eq_refl) as (block & Hb & (p & items & Hp & Hi & Hblock)).
  cbn in Hp, Hi. injection Hp as <-. injection Hi as <-.
  assert (Hin : In block blocks) by (eapply nth_error_In; eassumption).
  unfold case_header in Hblock. cbn [similarity_score case_id entry_A str_of_id] in Hblock.
  rewrite (format_1f_99_4 sA HA1 HA2) in Hblock.
  exists sA, ((guidance_header ++ join blocks) ++ guidance_trailer).
  split; [exact Hfind|]. split; [lra|]. split; [lra|].
  split; [unfold format_guidance; rewrite Hrun; reflexivity|].
  rewrite append_assoc.
  repeat split; apply contains_middle; apply (contains_join _ block blocks Hin);
    rewrite Hblock.
  - apply contains_append_l. vm_compute. reflexivity.
  - apply contains_append_l. vm_compute. reflexivity.
  - apply contains_append_r, contains_append_l. vm_compute. reflexivity.
Qed.

Lemma end_to_end_example_witness :
  exists score text,
    find_similar_cases Np.argsort_stable example_cosine query_09_01
      (Some [case_A [("1_atendimento_saudacao", true)];
             case_B [("1_atendimento_saudacao", false)]]%list) 1
    = Ok [entry_A score [("1_atendimento_saudacao", true)]]%list /\
    0.9935 <= score /\ score <= 0.9945 /\
    format_guidance [entry_A score [("1_atendimento_saudacao", true)]] = Ok text /\
    contains "ID A" text = true /\
    contains "99.4%" text = true /\
    contains "75/81" text = true.
Proof.
  apply (end_to_end_example Np.argsort_stable example_cosine).
  - exact argsort_stable_contract.
  - split; apply Qle_bool_iff; vm_compute; reflexivity.
  - split; apply Qle_bool_iff; vm_compute; reflexivity.
Defined.

Local Close Scope string_scope.

(** * More on [find_similar_cases] *)

(** X1. For [1 <= top_k], on a non-empty store of the query's dimension,
    and whatever sort [np.argsort] runs, [find_similar_cases] returns
    [min(top_k, N)] entries, built from as many different items of the
    store, and no item left out scores higher than an entry returned. *)
Theorem find_similar_cases_top_k_positive
    (argsort : list Q -> list nat) (row_cosine : list Q -> list Q -> Q)
    (query_embedding : list Q) (store : list ReferenceCase) (top_k : Z) :
  Np.argsort_contract argsort ->
  store <> [] -> same_dimension query_embedding store -> (1 <= top_k)%Z ->
  exists cases,
    find_similar_cases argsort row_cosine query_embedding (Some store) top_k = Ok cases /\
    List.length cases = Nat.min (Z.to_nat top_k) (List.length store) /\
    let top := top_indices_of argsort (similarities_of row_cosine query_embedding store) top_k in
    Forall2 (entry_of row_cosine query_embedding store) top cases /\
    NoDup top /\
    forall idx item case,
      nth_error store idx = Some item -> ~ In idx top -> In case cases ->
      row_cosine query_embedding (embedding item) <= similarity_score case.
Proof. apply find_similar_cases_top_k. Qed.

Lemma find_similar_cases_top_k_positive_witness :
  exists cases,
    find_similar_cases Np.argsort_stable example_cosine query_09_01
      (Some [case_A []; case_B []; twin_first]) 2 = Ok cases /\
    List.length cases = 2%nat.
Proof.
  destruct (find_similar_cases_top_k_positive Np.argsort_stable example_cosine query_09_01
              [case_A []; case_B []; twin_first] 2) as (cases & Hret & Hlen & _).
  - exact argsort_stable_contract.
  - discriminate.
  - split; [simpl; lia | repeat constructor].
  - lia.
  - exists cases. split; [exact Hret | exact Hlen].
Defined.

(** [l[start:]] for a start that is not negative drops [start] elements. *)
Lemma slice_from_drop {A} (start : Z) (l : list A) :
  (0 <= start)%Z ->
  List.length (slice_from start l) = (List.length l - Z.to_nat start)%nat.
Proof.
  intro Hs. unfold slice_from.
  replace (start <? 0)%Z with false by (symmetry; apply Z.ltb_ge; lia).
  rewrite length_skipn. lia.
Qed.

Lemma map_nth_seq {A} (d : A) (l : list A) :
  map (fun i => nth i l d) (seq 0 (List.length l)) = l.
Proof.
  induction l as [|x l IH]; [reflexivity|].
  cbn [List.length seq map nth]. f_equal.
  rewrite <- seq_shift, map_map. exact IH.
Qed.

Section MoreRankerFacts.

Variable argsort : list Q -> list nat.
Hypothesis argsort_ok : Np.argsort_contract argsort.
Variable row_cosine : list Q -> list Q -> Q.
Variable query_embedding : list Q.
Variable store : list ReferenceCase.
Variable top_k : Z.

(** What an entry built at [idx] shows is what the item at [idx] holds. *)
Lemma entries_show_items (d : ReferenceCase) (top : list nat) (cases : list SimilarCase) :
  Forall2 (entry_of row_cosine query_embedding store) top cases ->
  map shown_of_case cases = map (fun idx => shown_of_item (nth idx store d)) top.
Proof.
  induction 1 as [|idx case top cases Hentry _ IH]; [reflexivity|].
  cbn [map]. rewrite IH. f_equal.
  destruct Hentry as (_ & item & Hitem & Hid & Hmeta).
  rewrite (nth_error_nth _ _ d Hitem).
  unfold shown_of_case, shown_of_item. rewrite Hid, Hmeta. reflexivity.
Qed.

(** X4. Every entry [find_similar_cases] returns, for any [top_k], is
    built from an item of the store: it carries that item's [id] and
    [metadata], and its score is the kernel's value for the query against
    that item's embedding. *)
Theorem find_similar_cases_entries_genuine (cases : list SimilarCase) (case : SimilarCase) :
  find_similar_cases argsort row_cosine query_embedding (Some store) top_k = Ok cases ->
  In case cases ->
  exists item,
    In item store /\
    case_id case = id item /\
    case_metadata case = metadata item /\
    similarity_score case = row_cosine query_embedding (embedding item).
Proof.
  intros Hret Hin. apply (find_similar_cases_inv argsort argsort_ok) in Hret.
  destruct Hret as [[_ ->]|(_ & _ & Hall)]; [destruct Hin|].
  destruct (In_nth_error _ _ Hin) as [p Hp].
  destruct (Forall2_nth_error_r _ _ _ Hall p case Hp)
    as (idx & _ & Hsim & item & Hitem & Hid & Hmeta).
  exists item. split; [eapply nth_error_In; eassumption|].
  split; [exact Hid|]. split; [exact Hmeta|].
  unfold similarities_of in Hsim. rewrite nth_error_map, Hitem in Hsim.
  cbn in Hsim. congruence.
Qed.

(** Whatever [top_k], an item left out never outscores an entry
    returned. *)
Lemma find_similar_cases_keeps_best (cases : list SimilarCase) :
  find_similar_cases argsort row_cosine query_embedding (Some store) top_k = Ok cases ->
  forall idx item case,
    nth_error store idx = Some item ->
    ~ In idx (top_indices_of argsort (similarities_of row_cosine query_embedding store) top_k) ->
    In case cases ->
    row_cosine query_embedding (embedding item) <= similarity_score case.
Proof.
  intros Hret idx item case Hidx Hout Hin.
  apply (find_similar_cases_inv argsort argsort_ok) in Hret.
  destruct Hret as [[_ ->]|(_ & _ & Hall)]; [destruct Hin|].
  set (sims := similarities_of row_cosine query_embedding store) in *.
  destruct (In_nth_error _ _ Hin) as [p Hp].
  destruct (Forall2_nth_error_r _ _ _ Hall p case Hp) as (j & Hj & Hsim & _).
  rewrite <- (nth_error_value_at _ _ _ Hsim).
  assert (Hv : value_at sims idx = row_cosine query_embedding (embedding item)).
  { apply nth_error_value_at. unfold sims, similarities_of.
    rewrite nth_error_map, Hidx. reflexivity. }
  rewrite <- Hv. apply (top_indices_dominate argsort argsort_ok sims top_k).
  - unfold sims. rewrite similarities_of_length. apply nth_error_Some. congruence.
  - assumption.
  - eapply nth_error_In. eassumption.
Qed.

(** X2. A negative [top_k] makes the slice [[-top_k:]] start at the
    positive index [-top_k]: the [-top_k] lowest-scoring items are
    dropped and the other [N - (-top_k)] are returned (none when
    [-top_k >= N]); no dropped item outscores a returned entry. *)
Theorem find_similar_cases_negative_top_k :
  store <> [] -> same_dimension query_embedding store -> (top_k < 0)%Z ->
  exists cases,
    find_similar_cases argsort row_cosine query_embedding (Some store) top_k = Ok cases /\
    List.length cases = (List.length store - Z.to_nat (- top_k))%nat /\
    forall idx item case,
      nth_error store idx = Some item ->
      ~ In idx (top_indices_of argsort (similarities_of row_cosine query_embedding store) top_k) ->
      In case cases ->
      row_cosine query_embedding (embedding item) <= similarity_score case.
Proof.
  intros Hne Hdim Hk.
  destruct (find_similar_cases_returns argsort argsort_ok row_cosine query_embedding store
              top_k Hne Hdim) as (cases & Hret & Hall).
  exists cases. split; [exact Hret|]. split.
  - rewrite <- (Forall2_length Hall). unfold top_indices_of, reversed.
    rewrite length_rev, slice_from_drop by lia.
    rewrite (argsort_length argsort argsort_ok), similarities_of_length. reflexivity.
  - apply find_similar_cases_keeps_best. exact Hret.
Qed.

(** X3. With [top_k] at least the number of items, the result holds
    every item of the store exactly once: what the entries show (id and
    metadata) is a permutation of what the items hold. *)
Theorem find_similar_cases_all_items :
  store <> [] -> same_dimension query_embedding store ->
  (Z.of_nat (List.length store) <= top_k)%Z ->
  exists cases,
    find_similar_cases argsort row_cosine query_embedding (Some store) top_k = Ok cases /\
    Permutation (map shown_of_case cases) (map shown_of_item store).
Proof.
  intros Hne Hdim Hk.
  destruct (find_similar_cases_returns argsort argsort_ok row_cosine query_embedding store
              top_k Hne Hdim) as (cases & Hret & Hall).
  exists cases. split; [exact Hret|].
  destruct store as [|d rest] eqn:Es; [contradiction|]. rewrite <- Es in *.
  rewrite (entries_show_items d _ _ Hall).
  set (sims := similarities_of row_cosine query_embedding store) in *.
  assert (Htop : top_indices_of argsort sims top_k = rev (argsort sims)).
  { unfold top_indices_of, reversed. f_equal.
    rewrite slice_from_last by (rewrite Es in Hk; cbn [List.length] in Hk; lia).
    rewrite (argsort_length argsort argsort_ok). unfold sims.
    rewrite similarities_of_length.
    replace (List.length store - Z.to_nat top_k)%nat with 0%nat by lia.
    reflexivity. }
  rewrite Htop.
  assert (Hs : map (fun idx => shown_of_item (nth idx store d))
                 (seq 0 (List.length store))
               = map shown_of_item store).
  { rewrite <- (map_map (fun i => nth i store d) shown_of_item).
    rewrite map_nth_seq. reflexivity. }
  rewrite <- Hs. apply Permutation_map.
  rewrite <- Permutation_rev. rewrite (argsort_perm argsort argsort_ok sims).
  unfold sims. rewrite similarities_of_length. reflexivity.
Qed.

End MoreRankerFacts.

(** The metadata of a returned entry is the metadata of a store item. *)
Lemma find_similar_cases_entries_genuine_aux
    (argsort : list Q -> list nat) (row_cosine : list Q -> list Q -> Q)
    (query_embedding : list Q) (store : list ReferenceCase) (top_k : Z)
    (cases : list SimilarCase) (case : SimilarCase) :
  Np.argsort_contract argsort ->
  find_similar_cases argsort row_cosine query_embedding (Some store) top_k = Ok cases ->
  In case cases ->
  exists item, In item store /\ case_metadata case = metadata item.
Proof.
  intros Hsort Hret Hin. apply (find_similar_cases_inv argsort Hsort) in Hret.
  destruct Hret as [[_ ->]|(_ & _ & Hall)]; [destruct Hin|].
  destruct (In_nth_error _ _ Hin) as [p Hp].
  destruct (Forall2_nth_error_r _ _ _ Hall p case Hp)
    as (idx & _ & _ & item & Hitem & _ & Hmeta).
  exists item. split; [eapply nth_error_In; eassumption | exact Hmeta].
Qed.

Lemma find_similar_cases_entries_genuine_witness :
  exists item,
    In item [case_A []; case_B []] /\
    case_id (entry_A (864691128455135232 # 870012354854655935) []) = id item.
Proof.
  destruct (find_similar_cases_entries_genuine Np.argsort_stable argsort_stable_contract
              example_cosine query_09_01
              [case_A []; case_B []] 1
              [entry_A (864691128455135232 # 870012354854655935) []]
              (entry_A (864691128455135232 # 870012354854655935) []))
    as (item & Hin & Hid & _).
  - vm_compute. reflexivity.
  - left. reflexivity.
  - exists item. split; assumption.
Defined.

Lemma find_similar_cases_negative_top_k_witness :
  exists cases,
    find_similar_cases Np.argsort_stable example_cosine query_09_01
      (Some [case_A []; case_B []; twin_first]) (-2) = Ok cases /\
    List.length cases = 1%nat.
Proof.
  destruct (find_similar_cases_negative_top_k Np.argsort_stable argsort_stable_contract
              example_cosine query_09_01
              [case_A []; case_B []; twin_first] (-2)) as (cases & Hret & Hlen & _).
  - discriminate.
  - split; [simpl; lia | repeat constructor].
  - lia.
  - exists cases. split; [exact Hret | exact Hlen].
Defined.

Lemma find_similar_cases_all_items_witness :
  exists cases,
    find_similar_cases Np.argsort_stable example_cosine query_09_01
      (Some [case_A []; case_B []]) 3 = Ok cases /\
    Permutation (map shown_of_case cases)
      (map shown_of_item [case_A []; case_B []]).
Proof.
  apply (find_similar_cases_all_items Np.argsort_stable argsort_stable_contract
           example_cosine query_09_01 [case_A []; case_B []] 3).
  - discriminate.
  - split; [simpl; lia | repeat constructor].
  - simpl. lia.
Defined.

(** * More on [get_gabarito_guidance] and [load_gabarito_embeddings] *)

Local Open Scope string_scope.

(** The first entry whose metadata lacks a key stops the loop with the
    [KeyError] of that key. *)
Lemma add_cases_missing_key (cases : list SimilarCase) :
  (exists case, In case cases /\ ~ well_formed case) ->
  forall guidance i,
  exists key,
    (key = "pontuacao_esperada" \/ key = "checklist") /\
    add_cases guidance i cases = Raise (KeyError key).
Proof.
  induction cases as [|case cases IH]; intros (bad & Hin & Hbad) guidance i;
    [destruct Hin|].
  cbn [add_cases].
  destruct (pontuacao_esperada (case_metadata case)) as [pontuacao|] eqn:Ep.
  2:{ exists "pontuacao_esperada". split; [left; reflexivity | reflexivity]. }
  destruct (checklist (case_metadata case)) as [items|] eqn:Ec.
  2:{ exists "checklist". split; [right; reflexivity | reflexivity]. }
  cbn [meta_getitem rbind]. apply IH.
  exists bad. split; [|exact Hbad].
  destruct Hin as [<-|Hin]; [|exact Hin].
  exfalso. apply Hbad. split; [rewrite Ep | rewrite Ec]; discriminate.
Qed.

Section MoreGuidanceFacts.

Variable argsort : list Q -> list nat.
Variable row_cosine : list Q -> list Q -> Q.
Variable client_embeddings : string -> string -> result (list (list Q)).
Variable transcript_text : string.
Variable log : list call.

(** X5. With a non-empty store, when the service answers with a vector
    of the store's dimension and every item has complete metadata,
    [get_gabarito_guidance] makes that one call, emits no warning and
    returns the header, [min(3, N)] blocks and the trailer; the blocks
    are those of the entries [find_similar_cases] returns for
    [top_k = 3], numbered from 1. *)
Theorem get_gabarito_guidance_success
    (store : list ReferenceCase) (vec : list Q) (rest : list (list Q)) :
  Np.argsort_contract argsort ->
  store <> []%list ->
  client_embeddings transcript_text "text-embedding-3-small" = Ok (vec :: rest)%list ->
  same_dimension vec store ->
  Forall (fun item => complete_metadata (metadata item)) store ->
  exists cases blocks,
    find_similar_cases argsort row_cosine vec (Some store) 3 = Ok cases /\
    List.length blocks = Nat.min 3 (List.length store) /\
    (forall n case, nth_error cases n = Some case ->
       exists block, nth_error blocks n = Some block /\
                     case_block (1 + Z.of_nat n) case block) /\
    get_gabarito_guidance argsort row_cosine (Some store) client_embeddings transcript_text log
    = (Ok (guidance_header ++ join blocks ++ guidance_trailer),
       (log ++ [embeddings_create transcript_text "text-embedding-3-small"])%list).
Proof.
  intros Hsort Hne Hcall Hdim Hmeta.
  destruct (find_similar_cases_top_k argsort row_cosine vec store 3 Hsort Hne Hdim)
    as (cases & Hret & Hlen & Hall & _); [lia|].
  assert (Hwf : Forall well_formed cases).
  { apply Forall_forall. intros case Hin.
    destruct (find_similar_cases_entries_genuine_aux argsort row_cosine vec store 3
                cases case Hsort Hret Hin) as (item & Hitem & Hm).
    rewrite Forall_forall in Hmeta. unfold well_formed. rewrite Hm.
    apply (Hmeta item Hitem). }
  destruct (add_cases_blocks cases Hwf guidance_header 1) as (blocks & Hrun & Hbl & Hnth).
  exists cases, blocks. split; [exact Hret|].
  split; [rewrite Hbl, Hlen; reflexivity|]. split; [exact Hnth|].
  unfold get_gabarito_guidance, try_except, bind, client_embeddings_create, lift.
  rewrite Hcall. cbn [getitem nth_error]. rewrite Hret.
  unfold format_guidance. destruct cases as [|c cs].
  - exfalso. destruct store; [contradiction | simpl in Hlen; discriminate].
  - rewrite Hrun. cbn [rbind]. rewrite append_assoc. reflexivity.
Qed.

(** X6. When one of the entries selected for the guidance has metadata
    without [pontuacao_esperada] or without [checklist], the whole block
    is given up: the function returns the empty string and warns with the
    name of the missing key. *)
Theorem get_gabarito_guidance_missing_key
    (store : list ReferenceCase) (vec : list Q) (rest : list (list Q))
    (cases : list SimilarCase) :
  client_embeddings transcript_text "text-embedding-3-small" = Ok (vec :: rest)%list ->
  find_similar_cases argsort row_cosine vec (Some store) 3 = Ok cases ->
  (exists case, In case cases /\ ~ well_formed case) ->
  exists key,
    (key = "pontuacao_esperada" \/ key = "checklist") /\
    get_gabarito_guidance argsort row_cosine (Some store) client_embeddings transcript_text log
    = (Ok "",
       (log ++ [embeddings_create transcript_text "text-embedding-3-small";
                st_warning ("⚠️ Erro ao buscar casos similares: '" ++ key ++ "'")])%list).
Proof.
  intros Hcall Hret Hbad.
  destruct (add_cases_missing_key cases Hbad guidance_header 1) as (key & Hkey & Hrun).
  exists key. split; [exact Hkey|].
  unfold get_gabarito_guidance, try_except, bind, client_embeddings_create, lift, st, ret.
  rewrite Hcall. cbn [getitem nth_error]. rewrite Hret.
  unfold format_guidance. destruct cases as [|c cs].
  - destruct Hbad as (bad & [] & _).
  - rewrite Hrun. cbn [rbind str_of_exn]. rewrite <- app_assoc. reflexivity.
Qed.

(** X7. A store that is an empty list is not [None]: the embedding
    service is still called once, and the function then returns the empty
    string without a warning. *)
Theorem get_gabarito_guidance_empty_list (vec : list Q) (rest : list (list Q)) :
  client_embeddings transcript_text "text-embedding-3-small" = Ok (vec :: rest)%list ->
  get_gabarito_guidance argsort row_cosine (Some []%list) client_embeddings transcript_text log
  = (Ok "", (log ++ [embeddings_create transcript_text "text-embedding-3-small"])%list).
Proof.
  intro Hcall.
  unfold get_gabarito_guidance, try_except, bind, client_embeddings_create, lift.
  rewrite Hcall. reflexivity.
Qed.

(** X8. When the vector the service returns has another length than the
    embedding of some item of the store, the [ValueError] of
    [find_similar_cases] is caught: empty string, one warning. *)
Theorem get_gabarito_guidance_dimension_mismatch
    (store : list ReferenceCase) (vec : list Q) (rest : list (list Q)) :
  client_embeddings transcript_text "text-embedding-3-small" = Ok (vec :: rest)%list ->
  (exists item, In item store /\ List.length (embedding item) <> List.length vec) ->
  exists msg,
    get_gabarito_guidance argsort row_cosine (Some store) client_embeddings transcript_text log
    = (Ok "",
       (log ++ [embeddings_create transcript_text "text-embedding-3-small";
                st_warning ("⚠️ Erro ao buscar casos similares: " ++ msg)])%list).
Proof.
  intros Hcall (item & Hin & Hlen).
  destruct (find_similar_cases_raises argsort row_cosine vec store 3) as (msg & Hraise).
  - intros ->. destruct Hin.
  - intros [_ Hall]. rewrite Forall_forall in Hall. apply Hlen. auto.
  - exists msg.
    unfold get_gabarito_guidance, try_except, bind, client_embeddings_create, lift, st, ret.
    rewrite Hcall. cbn [getitem nth_error]. rewrite Hraise.
    cbn [str_of_exn]. rewrite <- app_assoc. reflexivity.
Qed.

(** X9. When the response of the service holds no embedding at all,
    [response.data[0]] raises [IndexError]; it is caught like any other
    failure. *)
Theorem get_gabarito_guidance_empty_response (store : list ReferenceCase) :
  client_embeddings transcript_text "text-embedding-3-small" = Ok []%list ->
  get_gabarito_guidance argsort row_cosine (Some store) client_embeddings transcript_text log
  = (Ok "",
     (log ++ [embeddings_create transcript_text "text-embedding-3-small";
              st_warning "⚠️ Erro ao buscar casos similares: list index out of range"])%list).
Proof.
  intro Hcall.
  unfold get_gabarito_guidance, try_except, bind, client_embeddings_create, lift, st, ret.
  rewrite Hcall. cbn [getitem nth_error]. rewrite <- app_assoc. reflexivity.
Qed.

End MoreGuidanceFacts.

(** X10. Whatever reading the snapshot gives, [load_gabarito_embeddings]
    returns without raising after exactly one Streamlit message: the list
    read and [st.success] when reading succeeds, [None] and a warning or
    an error message when it raises. *)
Theorem load_gabarito_embeddings_outcomes
    (snapshot : result (list ReferenceCase)) (log : list call) :
  exists loaded message,
    load_gabarito_embeddings snapshot log = (Ok loaded, (log ++ [message])%list) /\
    match snapshot with
    | Ok embeddings =>
        loaded = Some embeddings /\
        message = st_success ("✅ Gabarito carregado: "
                                ++ str_of_int (Z.of_nat (List.length embeddings))
                                ++ " casos de referência")
    | Raise e =>
        loaded = None /\
        ((exists msg, e = FileNotFoundError msg /\
                      message = st_warning "⚠️ Arquivo gabarito_embeddings.pkl não encontrado. Sistema funcionando sem referência.") \/
         (is_FileNotFoundError e = false /\
          message = st_error ("❌ Erro ao carregar gabarito: " ++ str_of_exn e)))
    end.
Proof.
  destruct snapshot as [embeddings|e].
  - eexists. eexists. split; [reflexivity|]. split; reflexivity.
  - destruct e; eexists; eexists; (split; [reflexivity|]); (split; [reflexivity|]);
      try (right; split; reflexivity).
    left. eexists. split; reflexivity.
Qed.

Local Close Scope string_scope.

Local Open Scope string_scope.

Lemma get_gabarito_guidance_success_witness :
  exists blocks,
    List.length blocks = 2%nat /\
    get_gabarito_guidance Np.argsort_stable example_cosine (Some [case_A []; case_B []]%list)
      client_09_01 "bom dia" []%list
    = (Ok (guidance_header ++ join blocks ++ guidance_trailer),
       [embeddings_create "bom dia" "text-embedding-3-small"]%list).
Proof.
  destruct (get_gabarito_guidance_success Np.argsort_stable example_cosine client_09_01
              "bom dia" []%list [case_A []; case_B []]%list query_09_01 []%list)
    as (cases & blocks & _ & Hlen & _ & Hrun).
  - exact argsort_stable_contract.
  - discriminate.
  - reflexivity.
  - split; [simpl; lia | repeat constructor].
  - repeat constructor; discriminate.
  - exists blocks. split; [exact Hlen | exact Hrun].
Defined.

Lemma get_gabarito_guidance_missing_key_witness :
  exists key,
    (key = "pontuacao_esperada" \/ key = "checklist") /\
    get_gabarito_guidance Np.argsort_stable example_cosine (Some [case_A []; case_without_score]%list)
      client_09_01 "bom dia" []%list
    = (Ok "",
       [embeddings_create "bom dia" "text-embedding-3-small";
        st_warning ("⚠️ Erro ao buscar casos similares: '" ++ key ++ "'")]%list).
Proof.
  apply (get_gabarito_guidance_missing_key Np.argsort_stable example_cosine client_09_01
           "bom dia" []%list
           [case_A []; case_without_score]%list query_09_01 []%list
           [ entry_A (864691128455135232 # 870012354854655935) []%list;
             {| similarity_score := 288230376151711744 # 2610037064563967805;
                case_id := IdStr "C";
                case_metadata := {| pontuacao_esperada := None; checklist := Some []%list |} |}
           ]%list).
  - reflexivity.
  - vm_compute. reflexivity.
  - eexists. split; [right; left; reflexivity|]. intros [H _]. apply H. reflexivity.
Defined.

Lemma get_gabarito_guidance_empty_list_witness :
  get_gabarito_guidance Np.argsort_stable example_cosine (Some []%list) client_09_01 "bom dia" []%list
  = (Ok "", [embeddings_create "bom dia" "text-embedding-3-small"]%list).
Proof.
  apply (get_gabarito_guidance_empty_list Np.argsort_stable example_cosine client_09_01
           "bom dia" []%list
           query_09_01 []%list).
  reflexivity.
Defined.

Lemma get_gabarito_guidance_dimension_mismatch_witness :
  exists msg,
    get_gabarito_guidance Np.argsort_stable example_cosine
      (Some [case_A []; {| id := IdStr "D"; embedding := [1; 0; 0];
                           metadata := meta 10 [] |}]%list)
      client_09_01 "bom dia" []%list
    = (Ok "",
       [embeddings_create "bom dia" "text-embedding-3-small";
        st_warning ("⚠️ Erro ao buscar casos similares: " ++ msg)]%list).
Proof.
  apply (get_gabarito_guidance_dimension_mismatch Np.argsort_stable example_cosine
           client_09_01
           "bom dia" []%list _ query_09_01 []%list).
  - reflexivity.
  - eexists. split; [right; left; reflexivity|]. simpl. lia.
Defined.

Lemma get_gabarito_guidance_empty_response_witness :
  get_gabarito_guidance Np.argsort_stable example_cosine (Some [case_A []]%list)
    (fun _ _ => Ok []%list) "bom dia" []%list
  = (Ok "",
     [embeddings_create "bom dia" "text-embedding-3-small";
      st_warning "⚠️ Erro ao buscar casos similares: list index out of range"]%list).
Proof.
  apply (get_gabarito_guidance_empty_response Np.argsort_stable example_cosine
           (fun _ _ => Ok []%list)
           "bom dia" []%list [case_A []]%list).
  reflexivity.
Defined.

Local Close Scope string_scope.

(** * [extract_json] *)

Lemma find_char_range (c : ascii) (s : string) : (-1 <= PyStr.find_char c s)%Z.
Proof.
  induction s as [|a s IH]; cbn [PyStr.find_char]; [lia|].
  destruct (Ascii.eqb a c); [lia|].
  destruct (PyStr.find_char c s =? -1)%Z; lia.
Qed.

Lemma rfind_char_range (c : ascii) (s : string) : (-1 <= PyStr.rfind_char c s)%Z.
Proof.
  induction s as [|a s IH]; cbn [PyStr.rfind_char]; [lia|].
  destruct (PyStr.rfind_char c s =? -1)%Z; [|lia].
  destruct (Ascii.eqb a c); lia.
Qed.

(** The first [c] after a text without [c] is found at the length of
    that text. *)
Lemma find_char_after (c : ascii) (pre rest : string) :
  PyStr.find_char c pre = (-1)%Z ->
  PyStr.find_char c (pre ++ String c rest) = Z.of_nat (String.length pre).
Proof.
  induction pre as [|a pre IH]; intro Hpre.
  - cbn [append PyStr.find_char String.length]. rewrite Ascii.eqb_refl. reflexivity.
  - cbn [PyStr.find_char] in Hpre.
    change (String a pre ++ String c rest)%string
      with (String a (pre ++ String c rest)).
    cbn [PyStr.find_char String.length].
    destruct (Ascii.eqb a c); [discriminate|].
    pose proof (find_char_range c pre) as Hr.
    destruct (PyStr.find_char c pre =? -1)%Z eqn:E; [|lia].
    apply Z.eqb_eq in E. rewrite (IH E).
    replace (Z.of_nat (String.length pre) =? -1)%Z with false
      by (symmetry; apply Z.eqb_neq; lia).
    lia.
Qed.

(** The last [c] in front of a text without [c] is found at the length
    of what precedes it. *)
Lemma rfind_char_before (c : ascii) (s post : string) :
  PyStr.rfind_char c post = (-1)%Z ->
  PyStr.rfind_char c (s ++ String c post) = Z.of_nat (String.length s).
Proof.
  intro Hpost. induction s as [|a s IH].
  - cbn [append PyStr.rfind_char String.length]. rewrite Hpost.
    cbn. rewrite Ascii.eqb_refl. reflexivity.
  - change (String a s ++ String c post)%string
      with (String a (s ++ String c post)).
    cbn [PyStr.rfind_char String.length]. rewrite IH.
    replace (Z.of_nat (String.length s) =? -1)%Z with false
      by (symmetry; apply Z.eqb_neq; lia).
    lia.
Qed.

Lemma string_length_append (a b : string) :
  String.length (a ++ b) = (String.length a + String.length b)%nat.
Proof. induction a as [|c a IH]; cbn; [reflexivity | rewrite IH; reflexivity]. Qed.

Lemma substring_middle (pre mid post : string) :
  substring (String.length pre) (String.length mid) (pre ++ mid ++ post) = mid.
Proof.
  induction pre as [|c pre IH]; [|exact IH].
  cbn [String.length append]. induction mid as [|c mid IH].
  - destruct post; reflexivity.
  - cbn. rewrite IH. reflexivity.
Qed.

(** [s[a : a + m]] inside the bounds of [s]. *)
Lemma slice_middle (pre mid post : string) :
  PyStr.slice (Z.of_nat (String.length pre))
    (Z.of_nat (String.length pre) + Z.of_nat (String.length mid))
    (pre ++ mid ++ post)
  = mid.
Proof.
  unfold PyStr.slice. rewrite !string_length_append.
  replace (Z.of_nat (String.length pre) <? 0)%Z with false
    by (symmetry; apply Z.ltb_ge; lia).
  replace (Z.of_nat (String.length pre) + Z.of_nat (String.length mid) <? 0)%Z
    with false by (symmetry; apply Z.ltb_ge; lia).
  rewrite !Z.min_l by lia.
  replace (Z.to_nat (Z.of_nat (String.length pre) + Z.of_nat (String.length mid)
                     - Z.of_nat (String.length pre)))
    with (String.length mid) by lia.
  rewrite Nat2Z.id. apply substring_middle.
Qed.

Section ExtractJsonFacts.

Variable json : Type.
Variable json_loads : string -> result json.

Local Open Scope string_scope.

(** X11. Text around a JSON object is ignored: when no opening brace
    precedes the object, no closing brace follows it and [json.loads]
    accepts the text from brace to brace, [extract_json] returns what
    [json.loads] returns for it. *)
Theorem extract_json_ignores_wrapper (pre body post : string) (v : json) :
  PyStr.find_char "{" pre = (-1)%Z ->
  PyStr.rfind_char "}" post = (-1)%Z ->
  json_loads ("{" ++ body ++ "}") = Ok v ->
  extract_json json json_loads (pre ++ "{" ++ body ++ "}" ++ post) = Ok v.
Proof.
  intros Hpre Hpost Hload.
  set (a := String.length pre). set (b := String.length body).
  set (text := pre ++ "{" ++ body ++ "}" ++ post).
  assert (Hfind : PyStr.find_char "{" text = Z.of_nat a).
  { apply (find_char_after "{" pre _ Hpre). }
  assert (Hrfind : PyStr.rfind_char "}" text = Z.of_nat (a + S b)).
  { unfold text.
    replace (pre ++ "{" ++ body ++ "}" ++ post)
      with ((pre ++ String "{" body) ++ String "}" post)
      by (rewrite append_assoc; reflexivity).
    rewrite (rfind_char_before "}" _ post Hpost).
    rewrite string_length_append. reflexivity. }
  assert (Hslice : PyStr.slice (Z.of_nat a) (Z.of_nat (a + S b) + 1) text
                   = "{" ++ body ++ "}").
  { replace (Z.of_nat (a + S b) + 1)%Z
      with (Z.of_nat a + Z.of_nat (String.length ("{" ++ body ++ "}")))%Z.
    - unfold text.
      replace (pre ++ "{" ++ body ++ "}" ++ post)
        with (pre ++ ("{" ++ body ++ "}") ++ post).
      + apply slice_middle.
      + cbn [append]. rewrite append_assoc. reflexivity.
    - cbn [append String.length]. rewrite string_length_append.
      cbn [String.length]. fold b. lia. }
  unfold extract_json. rewrite Hfind, Hrfind.
  replace (negb (Z.of_nat a =? -1)%Z) with true
    by (symmetry; apply negb_true_iff, Z.eqb_neq; lia).
  replace (negb (Z.of_nat (a + S b) =? -1)%Z) with true
    by (symmetry; apply negb_true_iff, Z.eqb_neq; lia).
  replace (Z.of_nat (a + S b) >? Z.of_nat a)%Z with true
    by (symmetry; apply Z.gtb_lt; lia).
  cbn [andb].
  rewrite Hslice. unfold try_loads. rewrite Hload. reflexivity.
Qed.

(** X12. [extract_json] has two outcomes only.  Either the text from
    the first opening brace to the last closing brace exists and loads,
    and its value is returned; or the function raises the error of
    [re.findall], whose pattern does not compile.  The [ValueError] of
    line 215 is never raised, and a text without braces in that order
    never yields a value. *)
Theorem extract_json_outcomes (text : string) :
  let start_idx := PyStr.find_char "{" text in
  let end_idx := PyStr.rfind_char "}" text in
  (exists v,
     (0 <= start_idx < end_idx)%Z /\
     json_loads (PyStr.slice start_idx (end_idx + 1) text) = Ok v /\
     extract_json json json_loads text = Ok v) \/
  extract_json json json_loads text
  = Raise (OtherException "unknown extension ?R at position 12").
Proof.
  cbv zeta. unfold extract_json.
  pose proof (find_char_range "{" text) as Hs.
  pose proof (rfind_char_range "}" text) as He.
  destruct (negb (PyStr.find_char "{" text =? -1)%Z
            && negb (PyStr.rfind_char "}" text =? -1)%Z
            && (PyStr.rfind_char "}" text >? PyStr.find_char "{" text)%Z) eqn:Econd.
  - unfold try_loads.
    destruct (json_loads (PyStr.slice (PyStr.find_char "{" text)
                            (PyStr.rfind_char "}" text + 1) text)) as [v|e] eqn:El.
    + left. exists v. split; [|split; reflexivity].
      apply andb_prop in Econd. destruct Econd as [Econd Hgt].
      apply andb_prop in Econd. destruct Econd as [Hs1 _].
      apply negb_true_iff, Z.eqb_neq in Hs1. apply Z.gtb_lt in Hgt. lia.
    + right. reflexivity.
  - right. reflexivity.
Qed.

End ExtractJsonFacts.

Lemma extract_json_ignores_wrapper_witness :
  extract_json nat (fun s => if String.eqb s "{1}" then Ok 1%nat else Raise (ValueError "Expecting value"))
    "Segue o JSON: {1} Fim." = Ok 1%nat.
Proof.
  apply (extract_json_ignores_wrapper nat _ "Segue o JSON: " "1" " Fim." 1%nat);
    reflexivity.
Defined.

(** * [get_script_status_class] *)

Lemma lower_same (s t : string) :
  same_ignoring_case s t -> PyStr.lower s = PyStr.lower t.
Proof.
  induction 1 as [|a b s t Hab _ IH]; [reflexivity|].
  cbn [PyStr.lower]. rewrite Hab, IH. reflexivity.
Qed.

(** X13. The class depends on the status up to the case of its letters
    only: two statuses that differ in letter case get the same class. *)
Theorem get_script_status_class_ignores_case (s t : string) :
  same_ignoring_case s t ->
  get_script_status_class s = get_script_status_class t.
Proof.
  intro H. unfold get_script_status_class. rewrite (lower_same s t H). reflexivity.
Qed.

Lemma get_script_status_class_ignores_case_witness :
  get_script_status_class "Completo" = get_script_status_class "COMPLETO".
Proof.
  apply get_script_status_class_ignores_case.
  repeat (constructor; [reflexivity|]). constructor.
Defined.

(** * The score shown *)

Lemma round_half_even_Z (n : Z) (x : Q) : x == inject_Z n -> round_half_even x = n.
Proof.
  intro H. apply round_half_even_near; rewrite H; lra.
Qed.

Lemma ilog2_Z (n : Z) : (0 < n)%Z -> PyFloat.ilog2 (inject_Z n) = Z.log2 n.
Proof.
  intro Hn. unfold PyFloat.ilog2. cbn [Qnum Qden inject_Z].
  change (Z.log2 1) with 0%Z. rewrite Z.sub_0_r.
  replace (Qle_bool (2 ^ Z.log2 n) (inject_Z n)) with true; [reflexivity|].
  symmetry. apply Qle_bool_iff.
  change 2 with (inject_Z 2). rewrite <- Zpower_Qpower by apply Z.log2_nonneg.
  rewrite <- Zle_Qle. apply Z.log2_spec. exact Hn.
Qed.

Lemma round_nonneg_Z (n : Z) :
  (0 <= n < 2 ^ 53)%Z -> PyFloat.round_nonneg (inject_Z n) = PyFloat.Finite (inject_Z n).
Proof.
  intros [H0 Hn]. unfold PyFloat.round_nonneg.
  destruct (Qle_bool (inject_Z n) 0) eqn:E0.
  - apply Qle_bool_iff in E0. change 0 with (inject_Z 0) in E0.
    rewrite <- Zle_Qle in E0. assert (n = 0%Z) by lia. subst. reflexivity.
  - assert (Hpos : (0 < n)%Z).
    { destruct (Z.eq_dec n 0) as [->|]; [discriminate E0 | lia]. }
    rewrite (ilog2_Z n Hpos).
    assert (He : (0 <= Z.log2 n <= 52)%Z).
    { split; [apply Z.log2_nonneg|].
      assert (Z.log2 n < 53)%Z by (apply Z.log2_lt_pow2; lia). lia. }
    set (e := Z.log2 n) in *.
    rewrite Z.max_l by lia.
    set (k := (52 - e)%Z).
    assert (Hq : 2 ^ (e - 52) == / inject_Z (2 ^ k)).
    { replace (e - 52)%Z with (- k)%Z by (unfold k; lia).
      rewrite Qpower_opp. rewrite Zpower_Qpower by (unfold k; lia). reflexivity. }
    assert (Hk : (0 < 2 ^ k)%Z) by (apply Z.pow_pos_nonneg; unfold k; lia).
    assert (Hkq : 0 < inject_Z (2 ^ k)).
    { change 0 with (inject_Z 0). rewrite <- Zlt_Qlt. exact Hk. }
    assert (Hm : round_half_even (inject_Z n / 2 ^ (e - 52)) = (n * 2 ^ k)%Z).
    { apply round_half_even_Z. rewrite Hq, inject_Z_mult. field. lra. }
    rewrite Hm.
    assert (Hr : inject_Z (n * 2 ^ k) * 2 ^ (e - 52) == inject_Z n).
    { rewrite Hq, inject_Z_mult. field. lra. }
    replace (Qle_bool (2 ^ 1024) (inject_Z (n * 2 ^ k) * 2 ^ (e - 52))) with false.
    + f_equal. rewrite (Qred_complete _ _ Hr).
      apply Qcanon.Qred_identity. cbn. apply Z.gcd_1_r.
    + symmetry. apply not_true_is_false. intro Hle. apply Qle_bool_iff in Hle.
      rewrite Hr in Hle.
      assert (Hlt : inject_Z n < inject_Z (2 ^ 53)) by (rewrite <- Zlt_Qlt; exact Hn).
      assert (Hbig : inject_Z (2 ^ 53) <= 2 ^ 1024).
      { apply Qle_bool_iff. vm_compute. reflexivity. }
      lra.
Qed.

Lemma round_half_even_nonneg (x : Q) : 0 <= x -> (0 <= round_half_even x)%Z.
Proof.
  intro Hx. unfold round_half_even.
  assert (Hf : (0 <= Qfloor x)%Z).
  { change 0%Z with (Qfloor 0). apply Qfloor_resp_le. exact Hx. }
  destruct (Qcompare _ _); [destruct (Z.even _)| |]; lia.
Qed.

Lemma round_nonneg_range (x : Q) :
  PyFloat.round_nonneg x = PyFloat.PosInf \/
  exists q, PyFloat.round_nonneg x = PyFloat.Finite q /\ 0 <= q.
Proof.
  unfold PyFloat.round_nonneg.
  destruct (Qle_bool x 0) eqn:E0.
  - right. exists 0. split; [reflexivity | lra].
  - set (q := Z.max (PyFloat.ilog2 x - 52) (-1074)).
    set (m := round_half_even (x / 2 ^ q)).
    destruct (Qle_bool (2 ^ 1024) (inject_Z m * 2 ^ q)); [left; reflexivity|].
    right. eexists. split; [reflexivity|]. rewrite Qred_correct.
    assert (Hx : 0 < x).
    { apply Qnot_le_lt. intro H. apply Qle_bool_iff in H. congruence. }
    assert (Hp : 0 < 2 ^ q) by (apply Qpower_0_lt; lra).
    assert (Hm : (0 <= m)%Z).
    { apply round_half_even_nonneg. apply Qle_shift_div_l; [exact Hp | lra]. }
    rewrite Zle_Qle in Hm. change (inject_Z 0) with 0 in Hm.
    apply Qmult_le_0_compat; [exact Hm | lra].
Qed.

Lemma digits_value_nonneg (s : string) (a : Z) :
  PyFloat.digits_value s = Some a -> (0 <= a)%Z.
Proof.
  unfold PyFloat.digits_value. destruct (NilEmpty.uint_of_string s); [|discriminate].
  intros [= <-]. unfold Z.of_uint. apply N2Z.is_nonneg.
Qed.

Lemma decimal_value_nonneg (s : string) (x : Q) :
  PyFloat.decimal_value s = Some x -> 0 <= x.
Proof.
  unfold PyFloat.decimal_value. destruct (PyFloat.split_dot s) as [whole [fraction|]].
  - intro H.
    assert (Hcore : match PyFloat.digits_value whole, PyFloat.digits_value fraction with
                    | Some a, Some b =>
                        Some (inject_Z a + inject_Z b
                                           / inject_Z (10 ^ Z.of_nat (String.length fraction)))
                    | _, _ => None
                    end = Some x).
    { destruct whole as [|c w]; [destruct fraction as [|c f]; [discriminate|]|]; exact H. }
    clear H.
    destruct (PyFloat.digits_value whole) as [a|] eqn:Ea; [|discriminate].
    destruct (PyFloat.digits_value fraction) as [b|] eqn:Eb; [|discriminate].
    injection Hcore as <-.
    apply digits_value_nonneg in Ea, Eb.
    rewrite Zle_Qle in Ea, Eb. change (inject_Z 0) with 0 in Ea, Eb.
    assert (Hp : 0 < inject_Z (10 ^ Z.of_nat (String.length fraction))).
    { change 0 with (inject_Z 0). rewrite <- Zlt_Qlt.
      apply Z.pow_pos_nonneg; lia. }
    assert (0 <= inject_Z b / inject_Z (10 ^ Z.of_nat (String.length fraction))).
    { apply Qle_shift_div_l; [exact Hp | lra]. }
    lra.
  - destruct whole as [|c w]; [discriminate|].
    destruct (PyFloat.digits_value (String c w)) as [a|] eqn:Ea; [|discriminate].
    intros [= <-]. apply digits_value_nonneg in Ea.
    rewrite Zle_Qle in Ea. exact Ea.
Qed.

Lemma keep_digits_dots_uint (d : Decimal.uint) :
  keep_digits_dots (NilEmpty.string_of_uint d) = NilEmpty.string_of_uint d.
Proof.
  induction d; cbn [NilEmpty.string_of_uint keep_digits_dots]; [reflexivity|..];
    (match goal with
     | |- (if ?b then _ else _) = _ => change b with true
     end; cbv iota; rewrite IHd; reflexivity).
Qed.

Lemma split_dot_uint (d : Decimal.uint) :
  PyFloat.split_dot (NilEmpty.string_of_uint d) = (NilEmpty.string_of_uint d, None).
Proof.
  induction d; cbn [NilEmpty.string_of_uint PyFloat.split_dot]; [reflexivity|..];
    (match goal with
     | |- (if ?b then _ else _) = _ => change b with false
     end; cbv iota; rewrite IHd; reflexivity).
Qed.

Lemma str_of_int_nonneg (z : Z) :
  (0 <= z)%Z ->
  exists d, d <> Decimal.Nil /\
            str_of_int z = NilEmpty.string_of_uint d /\ Z.of_uint d = z.
Proof.
  intro Hz. destruct z as [|p|p]; [| |lia].
  - exists (Decimal.D0 Decimal.Nil). repeat split. discriminate.
  - exists (Pos.to_uint p). split; [apply DecimalPos.Unsigned.to_uint_nonnil|].
    split.
    + unfold str_of_int. cbn [Z.to_int NilZero.string_of_int].
      unfold NilZero.string_of_uint.
      pose proof (DecimalPos.Unsigned.to_uint_nonnil p) as Hn.
      destruct (Pos.to_uint p); [contradiction|..]; reflexivity.
    + unfold Z.of_uint. rewrite DecimalPos.Unsigned.of_to. reflexivity.
Qed.

Lemma keep_digits_dots_str_of_int (z : Z) :
  keep_digits_dots (str_of_int z) = str_of_int (Z.abs z).
Proof.
  destruct z as [|p|p].
  - reflexivity.
  - destruct (str_of_int_nonneg (Zpos p)) as (d & _ & Hd & _); [lia|].
    cbn [Z.abs]. rewrite Hd. apply keep_digits_dots_uint.
  - destruct (str_of_int_nonneg (Zpos p)) as (d & _ & Hd & _); [lia|].
    cbn [Z.abs]. rewrite Hd.
    assert (Hneg : str_of_int (Zneg p) = String "-" (str_of_int (Zpos p))) by reflexivity.
    rewrite Hneg, Hd. cbn [keep_digits_dots].
    match goal with
    | |- (if ?b then _ else _) = _ => change b with false
    end. cbv iota. apply keep_digits_dots_uint.
Qed.

Lemma decimal_value_str_of_int (z : Z) :
  (0 <= z)%Z -> PyFloat.decimal_value (str_of_int z) = Some (inject_Z z).
Proof.
  intro Hz. destruct (str_of_int_nonneg z Hz) as (d & Hnil & Hd & Hval).
  rewrite Hd. unfold PyFloat.decimal_value. rewrite split_dot_uint.
  assert (Hv : PyFloat.digits_value (NilEmpty.string_of_uint d) = Some z).
  { unfold PyFloat.digits_value. rewrite NilEmpty.usu. cbn. rewrite Hval. reflexivity. }
  destruct (NilEmpty.string_of_uint d) eqn:Es.
  - destruct d; [contradiction|..]; discriminate.
  - rewrite Hv. reflexivity.
Qed.

Lemma keep_digits_dots_no_digit (s : string) :
  has_digit s = false ->
  keep_digits_dots s = EmptyString \/
  exists r, keep_digits_dots s = String "." r /\
            (r = EmptyString \/ exists r', r = String "." r').
Proof.
  induction s as [|c s IH]; intro H; [left; reflexivity|].
  cbn [has_digit] in H. apply orb_false_iff in H. destruct H as [Hc Hs].
  cbn [keep_digits_dots]. rewrite Hc. cbn [orb].
  destruct (PyFloat.is_dot c) eqn:Ed; [|exact (IH Hs)].
  apply Ascii.eqb_eq in Ed. subst c. right.
  exists (keep_digits_dots s). split; [reflexivity|].
  destruct (IH Hs) as [->|(r & -> & _)]; [left; reflexivity|].
  right. exists r. reflexivity.
Qed.

Lemma decimal_value_no_digit (s : string) :
  has_digit s = false -> PyFloat.decimal_value (keep_digits_dots s) = None.
Proof.
  intro H. destruct (keep_digits_dots_no_digit s H) as [->|(r & -> & [->|(r' & ->)])].
  - reflexivity.
  - reflexivity.
  - unfold PyFloat.decimal_value. cbn [PyFloat.split_dot].
    change (PyFloat.is_dot ".") with true. cbv iota.
    unfold PyFloat.digits_value. cbn [NilEmpty.uint_of_string option_map].
    destruct (NilEmpty.uint_of_string r'); reflexivity.
Qed.

(** X14. A higher score never gets a lower class: the class of [a] does
    not rank above the class of [b] when [a <= b]. *)
Theorem get_progress_class_monotone (a b : Q) :
  a <= b ->
  (class_rank (get_progress_class (PyFloat.Finite a))
   <= class_rank (get_progress_class (PyFloat.Finite b)))%nat.
Proof.
  intro Hab. unfold get_progress_class, PyFloat.ge.
  destruct (Qle_bool 70 a) eqn:Ea70.
  - apply Qle_bool_iff in Ea70.
    replace (Qle_bool 70 b) with true; [apply Nat.le_refl|].
    symmetry. apply Qle_bool_iff. lra.
  - destruct (Qle_bool 70 b); [destruct (Qle_bool 50 a); cbn; lia|].
    destruct (Qle_bool 50 a) eqn:Ea50.
    + apply Qle_bool_iff in Ea50.
      replace (Qle_bool 50 b) with true; [apply Nat.le_refl|].
      symmetry. apply Qle_bool_iff. lra.
    + destruct (Qle_bool 50 b); cbn; lia.
Qed.

Lemma get_progress_class_monotone_witness :
  (class_rank (get_progress_class (PyFloat.Finite 49))
   <= class_rank (get_progress_class (PyFloat.Finite 81)))%nat.
Proof.
  apply get_progress_class_monotone. lra.
Defined.

Local Open Scope string_scope.

(** X15. For a score given as an integer [z] of magnitude below [2^53],
    printed by [str], line 625 computes the float [|z|]: the digits are
    kept and a minus sign is dropped.  Lines 627 and 628 then make their
    two calls: [st.progress] with [min(|z| / 100, 1.0)], and
    [st.markdown] with a heading that shows [|z|] under the class of
    [|z|]. *)
Theorem score_display_integer (z : Z) :
  (Z.abs z < 2 ^ 53)%Z ->
  score_total (str_of_int z) = Ok (PyFloat.Finite (inject_Z (Z.abs z))) /\
  score_display (str_of_int z)
  = (Ok tt,
     [ st_progress (PyFloat.min (PyFloat.div (PyFloat.Finite (inject_Z (Z.abs z))) 100) 1);
       st_markdown ("<h3 class='" ++ get_progress_class (PyFloat.Finite (inject_Z (Z.abs z)))
                      ++ "'>" ++ str_of_int (Z.abs z) ++ " pontos de 81</h3>") ]%list).
Proof.
  intro Hz.
  assert (Htotal : score_total (str_of_int z)
                   = Ok (PyFloat.Finite (inject_Z (Z.abs z)))).
  { unfold score_total, PyFloat.of_numeral.
    rewrite keep_digits_dots_str_of_int, decimal_value_str_of_int by lia.
    rewrite round_nonneg_Z by lia. reflexivity. }
  split; [exact Htotal|].
  unfold score_display. rewrite Htotal. cbn [PyFloat.to_int].
  replace (Qle_bool 0 (inject_Z (Z.abs z))) with true.
  - rewrite Qfloor_Z. reflexivity.
  - symmetry. apply Qle_bool_iff. change 0 with (inject_Z 0).
    rewrite <- Zle_Qle. lia.
Qed.

Lemma score_display_integer_witness :
  score_total (str_of_int (-75)) = Ok (PyFloat.Finite 75) /\
  score_display (str_of_int (-75))
  = (Ok tt,
     [ st_progress (PyFloat.Finite (3 # 4));
       st_markdown "<h3 class='progress-high'>75 pontos de 81</h3>" ]%list).
Proof.
  apply (score_display_integer (-75)). vm_compute. reflexivity.
Defined.

(** X16. Whatever ASCII text stands for the score, the float of line
    625, when there is one, is not negative: a finite value from 0 on, or
    infinity.  Every value line 627 gives to [st.progress] lies between 0
    and 1, also on the run that ends in an exception: when the float is
    infinity, [st.progress] is called with 1.0 and [int(total)] then
    raises. *)
Theorem score_display_in_range (pontuacao_total : string) :
  is_ascii pontuacao_total = true ->
  (forall total,
     score_total pontuacao_total = Ok total ->
     total = PyFloat.PosInf \/ exists q, total = PyFloat.Finite q /\ 0 <= q) /\
  (forall value,
     In (st_progress value) (snd (score_display pontuacao_total)) ->
     exists f, value = PyFloat.Finite f /\ 0 <= f /\ f <= 1) /\
  (score_total pontuacao_total = Ok PyFloat.PosInf ->
   score_display pontuacao_total
   = (Raise (OtherException "cannot convert float infinity to integer"),
      [st_progress (PyFloat.Finite 1)]%list)).
Proof.
  intros _.
  assert (Htot : forall total,
             score_total pontuacao_total = Ok total ->
             total = PyFloat.PosInf \/ exists q, total = PyFloat.Finite q /\ 0 <= q).
  { intros total H. unfold score_total, PyFloat.of_numeral in H.
    destruct (PyFloat.decimal_value _) as [x|]; [|discriminate].
    injection H as <-. apply round_nonneg_range. }
  assert (Hmin : forall x,
             x = PyFloat.PosInf \/ (exists q, x = PyFloat.Finite q /\ 0 <= q) ->
             exists f, PyFloat.min x 1 = PyFloat.Finite f /\ 0 <= f /\ f <= 1).
  { intros x [->|(q & -> & Hq)].
    - exists 1. split; [reflexivity | lra].
    - unfold PyFloat.min, PyFloat.gt. destruct (Qle_bool q 1) eqn:E; cbn [negb].
      + apply Qle_bool_iff in E. exists q. split; [reflexivity | lra].
      + exists 1. split; [reflexivity | lra]. }
  split; [exact Htot|]. split.
  - intros value Hin. unfold score_display in Hin.
    destruct (score_total pontuacao_total) as [total|e] eqn:Et; [|destruct Hin].
    assert (Hcall : st_progress value
                    = st_progress (PyFloat.min (PyFloat.div total 100) 1)).
    { destruct (PyFloat.to_int total) as [points|e]; cbn [snd app In] in Hin.
      - destruct Hin as [H|[H|[]]]; [symmetry; exact H | discriminate H].
      - destruct Hin as [H|[]]. symmetry. exact H. }
    injection Hcall as ->.
    apply Hmin. destruct (Htot total eq_refl) as [->|(q & -> & Hq)].
    + left. reflexivity.
    + unfold PyFloat.div, PyFloat.round.
      replace (Qle_bool 0 (q / 100)) with true; [apply round_nonneg_range|].
      symmetry. apply Qle_bool_iff. apply Qle_shift_div_l; lra.
  - intro Hinf. unfold score_display. rewrite Hinf. reflexivity.
Qed.

Lemma score_display_in_range_witness :
  (exists f,
     PyFloat.Finite (6800435437329449 # 9007199254740992) = PyFloat.Finite f /\
     0 <= f /\ f <= 1) /\
  score_display (nines 400)
  = (Raise (OtherException "cannot convert float infinity to integer"),
     [st_progress (PyFloat.Finite 1)]%list).
Proof.
  split.
  - apply (proj1 (proj2 (score_display_in_range "75.5 pontos" eq_refl))
             (PyFloat.Finite (6800435437329449 # 9007199254740992))).
    vm_compute. left. reflexivity.
  - apply (proj2 (proj2 (score_display_in_range (nines 400) eq_refl))).
    vm_compute. reflexivity.
Defined.

(** X17. An ASCII text without any digit, such as [None] or [N/A],
    leaves nothing for [float] to read: line 625 raises [ValueError], and
    lines 625–628 end there, before any call is made. *)
Theorem score_display_no_digit (pontuacao_total : string) :
  is_ascii pontuacao_total = true ->
  has_digit pontuacao_total = false ->
  exists msg,
    score_total pontuacao_total = Raise (ValueError msg) /\
    score_display pontuacao_total = (Raise (ValueError msg), []%list).
Proof.
  intros _ Hd. unfold score_display, score_total, PyFloat.of_numeral.
  rewrite (decimal_value_no_digit _ Hd). eexists. split; reflexivity.
Qed.

Lemma score_display_no_digit_witness :
  exists msg,
    score_total "None" = Raise (ValueError msg) /\
    score_display "None" = (Raise (ValueError msg), []%list).
Proof.
  apply score_display_no_digit; reflexivity.
Defined.

Local Close Scope string_scope.

(** * [get_pdf_download_link] *)

Lemma byte_value_range (a : ascii) : (0 <= Base64.byte_value a < 256)%Z.
Proof.
  unfold Base64.byte_value. pose proof (N_ascii_bounded a) as H. lia.
Qed.

Lemma byte_of_value_value (a : ascii) : Base64.byte_of_value (Base64.byte_value a) = a.
Proof.
  unfold Base64.byte_of_value, Base64.byte_value.
  rewrite N2Z.id. apply ascii_N_embedding.
Qed.

(** Below 64, a sextet is read back from its character, and its
    character is neither the padding nor a double quote. *)
Lemma sextet_round_trip (n : Z) :
  (0 <= n < 64)%Z ->
  Base64.sextet_of_char (Base64.char_of_sextet n) = Some n /\
  Ascii.eqb (Base64.char_of_sextet n) Base64.pad = false /\
  Ascii.eqb (Base64.char_of_sextet n) (ascii_of_nat 34) = false.
Proof.
  intro Hn.
  set (check := fun i : nat =>
         let c := Base64.char_of_sextet (Z.of_nat i) in
         match Base64.sextet_of_char c with
         | Some m => (m =? Z.of_nat i)%Z
         | None => false
         end && negb (Ascii.eqb c Base64.pad) && negb (Ascii.eqb c (ascii_of_nat 34))).
  assert (Hall : forallb check (seq 0 64) = true) by (vm_compute; reflexivity).
  rewrite forallb_forall in Hall.
  specialize (Hall (Z.to_nat n)).
  assert (Hin : In (Z.to_nat n) (seq 0 64)) by (apply in_seq; lia).
  apply Hall in Hin. unfold check in Hin. rewrite Z2Nat.id in Hin by lia.
  cbv zeta in Hin.
  apply andb_prop in Hin. destruct Hin as [Hin Hq].
  apply andb_prop in Hin. destruct Hin as [Hs Hp].
  apply negb_true_iff in Hq, Hp.
  destruct (Base64.sextet_of_char (Base64.char_of_sextet n)) as [m|]; [|discriminate].
  apply Z.eqb_eq in Hs. subst m. repeat split; assumption.
Qed.

Lemma group_facts (a b c : Z) :
  (0 <= a < 256)%Z -> (0 <= b < 256)%Z -> (0 <= c < 256)%Z ->
  let n := (a * 65536 + b * 256 + c)%Z in
  let s1 := (n / 262144)%Z in
  let s2 := ((n / 4096) mod 64)%Z in
  let s3 := ((n / 64) mod 64)%Z in
  let s4 := (n mod 64)%Z in
  (0 <= s1 < 64 /\ 0 <= s2 < 64 /\ 0 <= s3 < 64 /\ 0 <= s4 < 64 /\
   s1 * 64 + s2 = a * 16 + b / 16 /\
   (s1 * 64 + s2) * 64 + s3 = a * 1024 + b * 4 + c / 64 /\
   ((s1 * 64 + s2) * 64 + s3) * 64 + s4 = n)%Z.
Proof.
  intros Ha Hb Hc. cbv zeta.
  Z.to_euclidean_division_equations. lia.
Qed.
(** Induction on a string three characters at a time. *)
Lemma string_ind3 (P : string -> Prop) :
  P EmptyString ->
  (forall a, P (String a EmptyString)) ->
  (forall a b, P (String a (String b EmptyString))) ->
  (forall a b c rest, P rest -> P (String a (String b (String c rest)))) ->
  forall s, P s.
Proof.
  intros H0 H1 H2 H3 s.
  assert (H : P s /\ (forall a, P (String a s)) /\ (forall a b, P (String a (String b s)))).
  { induction s as [|c s (IH0 & IH1 & IH2)].
    - repeat split; auto.
    - split; [apply IH1|]. split; [intro a; apply IH2|].
      intros a b. apply H3. exact IH0. }
  apply H.
Qed.

Lemma b64decode_b64encode (data : string) :
  Base64.b64decode (Base64.b64encode data) = Some data.
Proof.
  induction data as [|a|a b|a b c rest IH] using string_ind3.
  - reflexivity.
  - cbn [Base64.b64encode]. unfold Base64.group.
    change (Base64.byte_value Base64.zero) with 0%Z.
    pose proof (byte_value_range a) as Ha.
    destruct (group_facts (Base64.byte_value a) 0 0 Ha) as (R1 & R2 & _ & _ & E2 & _);
      [lia | lia |].
    set (n := (Base64.byte_value a * 65536 + 0 * 256 + 0)%Z) in *.
    destruct (sextet_round_trip _ R1) as (S1 & _ & _).
    destruct (sextet_round_trip _ R2) as (S2 & _ & _).
    cbn [Base64.b64decode]. rewrite S1, S2.
    rewrite Ascii.eqb_refl. rewrite E2.
    replace ((Base64.byte_value a * 16 + 0 / 16) / 16)%Z with (Base64.byte_value a)
      by (change (0 / 16)%Z with 0%Z; rewrite Z.add_0_r, Z.div_mul; lia).
    rewrite byte_of_value_value. reflexivity.
  - cbn [Base64.b64encode]. unfold Base64.group.
    change (Base64.byte_value Base64.zero) with 0%Z.
    pose proof (byte_value_range a) as Ha. pose proof (byte_value_range b) as Hb.
    destruct (group_facts (Base64.byte_value a) (Base64.byte_value b) 0 Ha Hb)
      as (R1 & R2 & R3 & _ & _ & E3 & _); [lia|].
    set (n := (Base64.byte_value a * 65536 + Base64.byte_value b * 256 + 0)%Z) in *.
    destruct (sextet_round_trip _ R1) as (S1 & _ & _).
    destruct (sextet_round_trip _ R2) as (S2 & _ & _).
    destruct (sextet_round_trip _ R3) as (S3 & P3 & _).
    cbn [Base64.b64decode]. rewrite S1, S2, P3, S3.
    rewrite Ascii.eqb_refl. cbv zeta. rewrite E3.
    change (0 / 64)%Z with 0%Z. rewrite Z.add_0_r.
    replace ((Base64.byte_value a * 1024 + Base64.byte_value b * 4) / 1024)%Z
      with (Base64.byte_value a) by (Z.to_euclidean_division_equations; lia).
    replace (((Base64.byte_value a * 1024 + Base64.byte_value b * 4) / 4) mod 256)%Z
      with (Base64.byte_value b) by (Z.to_euclidean_division_equations; lia).
    rewrite !byte_of_value_value. reflexivity.
  - cbn [Base64.b64encode]. unfold Base64.group.
    pose proof (byte_value_range a) as Ha. pose proof (byte_value_range b) as Hb.
    pose proof (byte_value_range c) as Hc.
    destruct (group_facts _ _ _ Ha Hb Hc) as (R1 & R2 & R3 & R4 & _ & _ & E4).
    set (n := (Base64.byte_value a * 65536 + Base64.byte_value b * 256
               + Base64.byte_value c)%Z) in *.
    destruct (sextet_round_trip _ R1) as (S1 & _ & _).
    destruct (sextet_round_trip _ R2) as (S2 & _ & _).
    destruct (sextet_round_trip _ R3) as (S3 & P3 & _).
    destruct (sextet_round_trip _ R4) as (S4 & P4 & _).
    cbn [Base64.b64decode]. rewrite S1, S2, P3, S3, P4, S4, IH.
    cbv zeta. rewrite E4.
    replace (n / 65536)%Z with (Base64.byte_value a)
      by (unfold n; Z.to_euclidean_division_equations; lia).
    replace ((n / 256) mod 256)%Z with (Base64.byte_value b)
      by (unfold n; Z.to_euclidean_division_equations; lia).
    replace (n mod 256)%Z with (Base64.byte_value c)
      by (unfold n; Z.to_euclidean_division_equations; lia).
    rewrite !byte_of_value_value. reflexivity.
Qed.

Lemma find_char_cons_other (q a : ascii) (s : string) :
  Ascii.eqb a q = false -> PyStr.find_char q s = (-1)%Z ->
  PyStr.find_char q (String a s) = (-1)%Z.
Proof.
  intros Ha Hs. cbn [PyStr.find_char]. rewrite Ha, Hs. reflexivity.
Qed.

(** No character of an encoded text is a double quote. *)
Lemma b64encode_no_quote (data : string) :
  PyStr.find_char (ascii_of_nat 34) (Base64.b64encode data) = (-1)%Z.
Proof.
  induction data as [|a|a b|a b c rest IH] using string_ind3.
  - reflexivity.
  - cbn [Base64.b64encode]. unfold Base64.group.
    change (Base64.byte_value Base64.zero) with 0%Z.
    pose proof (byte_value_range a) as Ha.
    destruct (group_facts (Base64.byte_value a) 0 0 Ha) as (R1 & R2 & _);
      [lia | lia |].
    destruct (sextet_round_trip _ R1) as (_ & _ & Q1).
    destruct (sextet_round_trip _ R2) as (_ & _ & Q2).
    repeat (apply find_char_cons_other; [assumption || reflexivity|]). reflexivity.
  - cbn [Base64.b64encode]. unfold Base64.group.
    change (Base64.byte_value Base64.zero) with 0%Z.
    pose proof (byte_value_range a) as Ha. pose proof (byte_value_range b) as Hb.
    destruct (group_facts (Base64.byte_value a) (Base64.byte_value b) 0 Ha Hb)
      as (R1 & R2 & R3 & _); [lia|].
    destruct (sextet_round_trip _ R1) as (_ & _ & Q1).
    destruct (sextet_round_trip _ R2) as (_ & _ & Q2).
    destruct (sextet_round_trip _ R3) as (_ & _ & Q3).
    repeat (apply find_char_cons_other; [assumption || reflexivity|]). reflexivity.
  - cbn [Base64.b64encode]. unfold Base64.group.
    pose proof (byte_value_range a) as Ha. pose proof (byte_value_range b) as Hb.
    pose proof (byte_value_range c) as Hc.
    destruct (group_facts _ _ _ Ha Hb Hc) as (R1 & R2 & R3 & R4 & _).
    destruct (sextet_round_trip _ R1) as (_ & _ & Q1).
    destruct (sextet_round_trip _ R2) as (_ & _ & Q2).
    destruct (sextet_round_trip _ R3) as (_ & _ & Q3).
    destruct (sextet_round_trip _ R4) as (_ & _ & Q4).
    do 4 (apply find_char_cons_other; [assumption|]). exact IH.
Qed.

Lemma b64encode_length (data : string) :
  String.length (Base64.b64encode data) = (4 * ((String.length data + 2) / 3))%nat.
Proof.
  induction data as [|a|a b|a b c rest IH] using string_ind3; try reflexivity.
  cbn [Base64.b64encode String.length]. rewrite IH.
  replace (S (S (S (String.length rest))) + 2)%nat
    with (String.length rest + 2 + 1 * 3)%nat by lia.
  rewrite Nat.div_add by lia. lia.
Qed.

Lemma drop_append (p x : string) : drop (String.length p) (p ++ x) = x.
Proof. induction p as [|c p IH]; [reflexivity | exact IH]. Qed.

(** X18. The download link carries the report without loss: what stands
    between [base64,] and the closing double quote of the [href] is the
    encoding of [pdf_bytes], whatever the file name, and decoding it gives
    [pdf_bytes] back. *)
Theorem get_pdf_download_link_round_trip (pdf_bytes filename : string) :
  href_payload (get_pdf_download_link pdf_bytes filename) = Base64.b64encode pdf_bytes /\
  Base64.b64decode (href_payload (get_pdf_download_link pdf_bytes filename))
  = Some pdf_bytes.
Proof.
  assert (H : href_payload (get_pdf_download_link pdf_bytes filename)
              = Base64.b64encode pdf_bytes).
  { unfold href_payload, get_pdf_download_link. cbv zeta.
    set (prefix := ("<a href=" ++ dq ++ "data:application/pdf;base64,")%string).
    set (b64 := Base64.b64encode pdf_bytes).
    set (tail := (" download=" ++ dq ++ filename ++ dq
                    ++ ">Baixar Relatório em PDF</a>")%string).
    replace ("<a href=" ++ dq ++ "data:application/pdf;base64," ++ b64 ++ dq ++ tail)%string
      with (prefix ++ b64 ++ String (ascii_of_nat 34) tail)%string by reflexivity.
    rewrite drop_append.
    rewrite (find_char_after _ b64 tail (b64encode_no_quote pdf_bytes)).
    change (b64 ++ String (ascii_of_nat 34) tail)%string
      with (EmptyString ++ b64 ++ String (ascii_of_nat 34) tail)%string.
    apply (slice_middle EmptyString b64). }
  split; [exact H|]. rewrite H. apply b64decode_b64encode.
Qed.

(** X19. The payload of the link is four characters for every three
    bytes of the report, the last group padded, and none of its
    characters is a double quote, so the payload cannot end the [href]
    attribute it is written in. *)
Theorem b64encode_shape (pdf_bytes : string) :
  String.length (Base64.b64encode pdf_bytes)
  = (4 * ((String.length pdf_bytes + 2) / 3))%nat /\
  PyStr.find_char (ascii_of_nat 34) (Base64.b64encode pdf_bytes) = (-1)%Z.
Proof.
  split; [apply b64encode_length | apply b64encode_no_quote].
Qed.
